(** * Speaker-turn segmenter and session registry of the transcription server

    A shallow embedding of the two socket servers of the repository:
    the single-session server (one recogniser client per caller
    connection) and the multi-session server (a [Map] of sessions per
    caller connection), together with the string operations their
    [receiveMessage] listeners are built from.

    Modelling conventions.
    - A JavaScript string is a [string]; a character is one code unit
      in the range 0..255.  The white-space class of [\s] and of
      [String.prototype.trim] is restricted to that range (TAB, LF, VT,
      FF, CR, SPACE, NBSP), the line terminators excluded by [.] are LF
      and CR.
    - A string is truthy exactly when it is not empty.
    - [new Date().toLocaleTimeString()] is wall-clock time; the
      [timestamp] field of a segment is left out of the model.
    - [console.log] / [console.error] calls are left out.
    - A listener that meets a result without a first alternative throws
      a [TypeError] before it has written or sent anything.
      [receiveMessage] gives the session as it is at the throw and no
      output; [Multi.listener_throws] tells that the throw happens; the
      exception is caught nowhere, so a run of messages over a
      connection ([Multi.deliverAll]) ends there.
    - Of the socket handlers of the multi-session server, [audioData]
      and [stopRecording] are modelled; [disconnect], which walks the
      map in insertion order, is not. *)

From Stdlib Require Import Ascii String List Bool Arith Lia.
From stdpp Require Import base strings gmap.
Import ListNotations.

Local Open Scope string_scope.

(** ** JavaScript string primitives used by the listeners *)

Module JsString.

(** [\s], restricted to code units below 256. *)
Definition is_ws (c : ascii) : bool :=
  ((c =? "009") || (c =? "010") || (c =? "011") || (c =? "012")
   || (c =? "013") || (c =? " ") || (c =? "160"))%char.

(** The class [[.,?!]]. *)
Definition is_punct (c : ascii) : bool :=
  ((c =? ".") || (c =? ",") || (c =? "?") || (c =? "!"))%char.

(** The class [[.!?]]. *)
Definition is_terminal (c : ascii) : bool :=
  ((c =? ".") || (c =? "!") || (c =? "?"))%char.

(** Line terminators: the characters the regex atom [.] refuses. *)
Definition is_line_terminator (c : ascii) : bool :=
  ((c =? "010") || (c =? "013"))%char.

(** Truthiness of a string. *)
Definition truthy (s : string) : bool :=
  match s with EmptyString => false | String _ _ => true end.

(** What a greedy [\s*] leaves when matched at the head of [s]. *)
Fixpoint drop_ws (s : string) : string :=
  match s with
  | EmptyString => EmptyString
  | String c s' => if is_ws c then drop_ws s' else s
  end.

(** Removal of trailing white space. *)
Fixpoint trim_end (s : string) : string :=
  match s with
  | EmptyString => EmptyString
  | String c s' =>
      match trim_end s' with
      | EmptyString => if is_ws c then EmptyString else String c EmptyString
      | r => String c r
      end
  end.

(** [s.trim()] *)
Definition trim (s : string) : string := trim_end (drop_ws s).

(** One attempt to match [/\s*([.,?!])\s*/] at the head of [s]: the
    captured punctuation mark and the rest of the subject after the
    match. *)
Definition match_punct_ws (s : string) : option (ascii * string) :=
  match drop_ws s with
  | String p r => if is_punct p then Some (p, drop_ws r) else None
  | EmptyString => None
  end.

(** [s.replace(/\s*([.,?!])\s*/g, '$1')]: scan from the left; where the
    pattern matches, write the captured mark and resume after the
    match; elsewhere copy one character and move on.  [fuel] bounds the
    number of scan steps. *)
Fixpoint strip_punct_ws_fuel (fuel : nat) (s : string) : string :=
  match fuel with
  | O => s
  | S fuel' =>
      match s with
      | EmptyString => EmptyString
      | String c s' =>
          match match_punct_ws s with
          | Some (p, rest) => String p (strip_punct_ws_fuel fuel' rest)
          | None => String c (strip_punct_ws_fuel fuel' s')
          end
      end
  end.

Definition strip_punct_ws (s : string) : string :=
  strip_punct_ws_fuel (String.length s) s.

(** The look-ahead [(?=.)] at the head of [s]. *)
Definition lookahead_any (s : string) : bool :=
  match s with
  | EmptyString => false
  | String d _ => negb (is_line_terminator d)
  end.

(** [s.replace(/([.,?!])(?=.)/g, '$1 ')] *)
Fixpoint space_after_punct (s : string) : string :=
  match s with
  | EmptyString => EmptyString
  | String c s' =>
      if is_punct c && lookahead_any s'
      then String c (String " " (space_after_punct s'))
      else String c (space_after_punct s')
  end.

(** [formattedText]: the chain
    [.replace(/\s*([.,?!])\s*/g, '$1').replace(/([.,?!])(?=.)/g, '$1 ').trim()]. *)
Definition formatText (text : string) : string :=
  trim (space_after_punct (strip_punct_ws text)).

(** [s.match(/^[.,?!]/)] as a truth value. *)
Definition starts_with_punct (s : string) : bool :=
  match s with
  | EmptyString => false
  | String c _ => is_punct c
  end.

(** [/[.!?]$/.test(s)] *)
Fixpoint ends_with_terminal (s : string) : bool :=
  match s with
  | EmptyString => false
  | String c EmptyString => is_terminal c
  | String _ s' => ends_with_terminal s'
  end.

(** [parts.join(' ')] *)
Definition join (parts : list string) : string := String.concat " " parts.

(** The whole normalisation of one piece of recognised text: trim,
    then the two replacements, then trim. *)
Definition normalize (s : string) : string := formatText (trim s).

(** The normalisation of an event's fragments. *)
Definition normalize_fragments (parts : list string) : string :=
  normalize (join parts).

End JsString.

Import JsString.

(** ** Recogniser messages and display segments *)

(** One entry of [TranscriptResult.alternatives]; [language] and
    [confidence] are never read. *)
Record alternative := {
  content : string;
  speaker : option string
}.

Record TranscriptResult := {
  alternatives : list alternative
}.

(** The [message] tag of a [RealtimeServerMessage]; every tag the
    listeners do not name is [OtherMessage]. *)
Inductive message_tag :=
| RecognitionStarted
| AddTranscript
| AddPartialTranscript
| OtherMessage.

Record RealtimeServerMessage := {
  message : message_tag;
  results : list TranscriptResult
}.

(** The object literal [{ speaker, text, timestamp }] without its
    wall-clock [timestamp]. *)
Record segment := {
  seg_speaker : string;
  seg_text : string
}.

(** [results.map(r => r.alternatives[0].content)]; reading [.content] of
    a missing first alternative throws a [TypeError], rendered [None]. *)
Fixpoint contents (rs : list TranscriptResult) : option (list string) :=
  match rs with
  | [] => Some []
  | r :: rs' =>
      match alternatives r, contents rs' with
      | a :: _, Some cs => Some (content a :: cs)
      | _, _ => None
      end
  end.

(** [results[0]?.alternatives[0]?.speaker || 'S1'] *)
Definition resolve_speaker (rs : list TranscriptResult) : string :=
  match rs with
  | r :: _ =>
      match alternatives r with
      | a :: _ =>
          match speaker a with
          | Some sp => if truthy sp then sp else "S1"
          | None => "S1"
          end
      | [] => "S1"
      end
  | [] => "S1"
  end.

(** ** The single-session server *)

Module Single.

(** The [let] variables of one caller connection. *)
Record state := {
  client : option nat;
  isConnected : bool;
  currentSpeaker : string;
  currentText : string;
  speakerTexts : gmap string string
}.

Definition initial : state :=
  {| client := None; isConnected := false;
     currentSpeaker := EmptyString; currentText := EmptyString;
     speakerTexts := ∅ |}.

(** [socket.emit('transcription', { segment, isPartial })] *)
Record transcription := {
  t_segment : segment;
  t_isPartial : bool
}.

Definition set_turn (sp tx : string) (st : state) : state :=
  {| client := client st; isConnected := isConnected st;
     currentSpeaker := sp; currentText := tx;
     speakerTexts := speakerTexts st |}.

(** The [receiveMessage] listener. *)
Definition receiveMessage (st : state) (evt : RealtimeServerMessage)
  : state * list transcription :=
  match message evt with
  | RecognitionStarted | OtherMessage => (st, [])
  | AddPartialTranscript | AddTranscript =>
      match contents (results evt) with
      | None => (st, [])
      | Some parts =>
          let text := trim (join parts) in
          if negb (truthy text) then (st, [])
          else
            let speaker := resolve_speaker (results evt) in
            let formattedText := formatText text in
            match message evt with
            | AddPartialTranscript =>
                if String.eqb speaker (currentSpeaker st)
                   || negb (truthy (currentSpeaker st))
                then
                  (st,
                   [ {| t_segment :=
                          {| seg_speaker := speaker;
                             seg_text :=
                               trim (currentText st
                                     +:+ (if truthy (currentText st)
                                             && negb (starts_with_punct formattedText)
                                          then " " else EmptyString)
                                     +:+ formattedText) |};
                        t_isPartial := true |} ])
                else (st, [])
            | _ =>
                let '(text1, out1) :=
                  if negb (String.eqb speaker (currentSpeaker st))
                     && truthy (currentText st)
                  then
                    (formattedText,
                     [ {| t_segment :=
                            {| seg_speaker := currentSpeaker st;
                               seg_text := trim (currentText st) |};
                          t_isPartial := false |} ])
                  else
                    ((if truthy (currentText st)
                      then currentText st
                           +:+ (if starts_with_punct formattedText
                                then EmptyString else " ")
                           +:+ formattedText
                      else formattedText),
                     [])
                in
                if ends_with_terminal text1
                then
                  (set_turn EmptyString EmptyString st,
                   (out1 ++
                    [ {| t_segment :=
                           {| seg_speaker := speaker;
                              seg_text := trim text1 |};
                         t_isPartial := false |} ])%list)
                else (set_turn speaker text1 st, out1)
            end
      end
  end.

(** The listener run over the connection's message stream. *)
Fixpoint receiveAll (st : state) (evts : list RealtimeServerMessage)
  : state * list transcription :=
  match evts with
  | [] => (st, [])
  | evt :: evts' =>
      let '(st1, out1) := receiveMessage st evt in
      let '(st2, out2) := receiveAll st1 evts' in
      (st2, (out1 ++ out2)%list)
  end.

End Single.

(** ** The multi-session server *)

Module Multi.

(** One value of the [clients] map.  A [RealtimeClient] object is
    represented by a handle. *)
Record session := {
  client : option nat;
  isConnected : bool;
  isConnecting : bool;
  currentSpeaker : string;
  currentText : string;
  speakerTexts : gmap string string
}.

(** What the caller connection and the recogniser clients are asked to
    do, in program order. *)
Inductive effect :=
| EmitTranscription (seg : segment) (isPartial : bool) (sessionId : string)
| EmitError (msg : string) (sessionId : string)
| NewClient (c : nat)
| CreateJWT (apiKey : string)
| Start (c : nat) (doctor : option string)
| SendAudio (c : nat) (base64 : string)
| StopRecognition (c : nat).

(** The closure state of one [io.on('connection', ...)] callback: the
    [clients] map, and the next unused client handle. *)
Record connection := {
  clients : gmap string session;
  next_client : nat
}.

Definition fresh_connection : connection :=
  {| clients := ∅; next_client := 0 |}.

(** The object literal that [getSession] stores for an unseen id. *)
Definition new_session : session :=
  {| client := None; isConnected := false; isConnecting := false;
     currentSpeaker := EmptyString; currentText := EmptyString;
     speakerTexts := ∅ |}.

Definition set_turn (sp tx : string) (s : session) : session :=
  {| client := client s; isConnected := isConnected s;
     isConnecting := isConnecting s;
     currentSpeaker := sp; currentText := tx;
     speakerTexts := speakerTexts s |}.

Definition set_connection_flags (connected connecting : bool) (s : session)
  : session :=
  {| client := client s; isConnected := connected;
     isConnecting := connecting;
     currentSpeaker := currentSpeaker s; currentText := currentText s;
     speakerTexts := speakerTexts s |}.

Definition set_client (c : option nat) (s : session) : session :=
  {| client := c; isConnected := isConnected s;
     isConnecting := isConnecting s;
     currentSpeaker := currentSpeaker s; currentText := currentText s;
     speakerTexts := speakerTexts s |}.

(** Truthiness of [session.client]. *)
Definition has_client (s : session) : bool :=
  match client s with Some _ => true | None => false end.

Definition final_segment (sp tx sessionId : string) : effect :=
  EmitTranscription {| seg_speaker := sp; seg_text := tx |} false sessionId.

(** *** The [receiveMessage] listener *)

(** The [AddPartialTranscript] branch. *)
Definition partial_preview (sessionId speaker formattedText : string)
    (s : session) : session * list effect :=
  if String.eqb speaker (currentSpeaker s) || negb (truthy (currentSpeaker s))
  then
    (s,
     [ EmitTranscription
         {| seg_speaker := speaker;
            seg_text :=
              trim (currentText s
                    +:+ (if truthy (currentText s)
                            && negb (starts_with_punct formattedText)
                         then " " else EmptyString)
                    +:+ formattedText) |}
         true sessionId ])
  else (s, []).

(** The [AddTranscript] branch up to [session.currentSpeaker = speaker]:
    flush on a speaker change, append otherwise. *)
Definition accumulate_final (sessionId speaker formattedText : string)
    (s : session) : session * list effect :=
  if negb (String.eqb speaker (currentSpeaker s)) && truthy (currentText s)
  then
    (set_turn speaker formattedText s,
     [ final_segment (currentSpeaker s) (trim (currentText s)) sessionId ])
  else
    (set_turn speaker
       (if truthy (currentText s)
        then currentText s
             +:+ (if starts_with_punct formattedText then EmptyString else " ")
             +:+ formattedText
        else formattedText)
       s,
     []).

(** The rest of the [AddTranscript] branch: close the turn when its
    text ends with a terminal mark. *)
Definition close_on_punctuation (sessionId : string) (s : session)
  : session * list effect :=
  if ends_with_terminal (currentText s)
  then
    (set_turn EmptyString EmptyString s,
     [ final_segment (currentSpeaker s) (trim (currentText s)) sessionId ])
  else (s, []).

Definition receiveMessage (sessionId : string) (s : session)
    (evt : RealtimeServerMessage) : session * list effect :=
  match isConnected s, message evt with
  | false, RecognitionStarted => (set_connection_flags true false s, [])
  | _, RecognitionStarted | _, OtherMessage => (s, [])
  | _, (AddTranscript | AddPartialTranscript) =>
      match contents (results evt) with
      | None => (s, [])
      | Some parts =>
          let text := trim (join parts) in
          if negb (truthy text) then (s, [])
          else
            let speaker := resolve_speaker (results evt) in
            let formattedText := formatText text in
            match message evt with
            | AddPartialTranscript =>
                partial_preview sessionId speaker formattedText s
            | _ =>
                let '(s1, out1) :=
                  accumulate_final sessionId speaker formattedText s in
                let '(s2, out2) := close_on_punctuation sessionId s1 in
                (s2, (out1 ++ out2)%list)
            end
      end
  end.

(** The listener run over a session's message stream. *)
Fixpoint receiveAll (sessionId : string) (s : session)
    (evts : list RealtimeServerMessage) : session * list effect :=
  match evts with
  | [] => (s, [])
  | evt :: evts' =>
      let '(s1, out1) := receiveMessage sessionId s evt in
      let '(s2, out2) := receiveAll sessionId s1 evts' in
      (s2, (out1 ++ out2)%list)
  end.

(** *** Socket handlers

    A handler is a computation over the connection state that may
    throw and that records its effects.  An [await] is a point where
    the environment decides; each handler invocation is run to its end
    in one piece, with the environment's answers given up front. *)

Inductive result (A : Type) :=
| Val (a : A)
| Thrown (err : string).
Arguments Val {A} a.
Arguments Thrown {A} err.

Definition M (A : Type) : Type :=
  connection -> result A * connection * list effect.

Definition ret {A} (a : A) : M A := fun w => (Val a, w, []).

Definition bind {A B} (m : M A) (k : A -> M B) : M B :=
  fun w =>
    match m w with
    | (Val a, w1, out1) =>
        let '(r, w2, out2) := k a w1 in (r, w2, (out1 ++ out2)%list)
    | (Thrown e, w1, out1) => (Thrown e, w1, out1)
    end.

Definition throw {A} (err : string) : M A := fun w => (Thrown err, w, []).

Definition tell (e : effect) : M unit := fun w => (Val tt, w, [e]).

(** [try { m } catch (error) { h error }] *)
Definition try_catch {A} (m : M A) (h : string -> M A) : M A :=
  fun w =>
    match m w with
    | (Val a, w1, out1) => (Val a, w1, out1)
    | (Thrown e, w1, out1) =>
        let '(r, w2, out2) := h e w1 in (r, w2, (out1 ++ out2)%list)
    end.

Notation "x <- m ;; k" := (bind m (fun x => k))
  (at level 100, m at next level, right associativity).
Notation "m ;;; k" := (bind m (fun _ => k))
  (at level 100, right associativity).

Definition with_clients (f : gmap string session -> gmap string session)
  : M unit :=
  fun w =>
    (Val tt, {| clients := f (clients w); next_client := next_client w |}, []).

(** [clients.get(sessionId)] *)
Definition lookup_session (sessionId : string) : M (option session) :=
  fun w => (Val (clients w !! sessionId), w, []).

(** A write through the [session] reference held by a handler. *)
Definition update_session (sessionId : string) (f : session -> session)
  : M unit :=
  with_clients (alter f sessionId).

(** [data.sessionId || 'default'] *)
Definition or_default (sessionId : option string) : string :=
  match sessionId with
  | Some sid => if truthy sid then sid else "default"
  | None => "default"
  end.

Definition getSession (sessionId : string) : M session :=
  s <- lookup_session sessionId ;;
  match s with
  | Some s => ret s
  | None =>
      with_clients (insert sessionId new_session) ;;;
      ret new_session
  end.

Definition cleanupClient (sessionId : string) : M unit :=
  s <- lookup_session sessionId ;;
  match s with
  | Some s =>
      match client s with
      | Some c =>
          tell (StopRecognition c) ;;;
          update_session sessionId
            (fun _ =>
               {| client := None; isConnected := false;
                  isConnecting := false;
                  currentSpeaker := EmptyString; currentText := EmptyString;
                  speakerTexts := ∅ |})
      | None => ret tt
      end
  | None => ret tt
  end.

(** The payload of an [audioData] message. *)
Record audioData_payload := {
  sessionId : option string;
  audio : string;
  doctorSpeakerIdentifier : option string
}.

(** What the environment answers during one [audioData] invocation:
    the value of [process.env.SPEECHMATICS_API_KEY], whether
    [createSpeechmaticsJWT] and [client.start] resolve, whether the
    session's client delivers [RecognitionStarted] before the ten
    seconds of the polling loop are over, and whether [sendAudio]
    resolves. *)
Record environment := {
  SPEECHMATICS_API_KEY : option string;
  jwt_resolves : bool;
  start_resolves : bool;
  started_in_time : bool;
  sendAudio_resolves : bool
}.

Definition truthy_opt (o : option string) : option string :=
  match o with
  | Some s => if truthy s then Some s else None
  | None => None
  end.

(** [new RealtimeClient(...)] stored in [session.client], with the
    listener attached. *)
Definition new_client (sessionId : string) : M nat :=
  fun w =>
    let c := next_client w in
    (Val c,
     {| clients := alter (set_client (Some c)) sessionId (clients w);
        next_client := S c |},
     [NewClient c]).

(** The block guarded by [!session.client && !session.isConnecting].
    The value [false] says that the handler has returned. *)
Definition connect (env : environment) (data : audioData_payload)
    (sid : string) (session : session) : M bool :=
  if negb (has_client session)
     && negb (isConnecting session)
  then
    update_session sid
      (fun s => set_connection_flags (isConnected s) true s) ;;;
    match truthy_opt (SPEECHMATICS_API_KEY env) with
    | None => throw "SPEECHMATICS_API_KEY not set"
    | Some apiKey =>
        c <- new_client sid ;;
        try_catch
          (tell (CreateJWT apiKey) ;;;
           if jwt_resolves env
           then
             tell (Start c (truthy_opt (doctorSpeakerIdentifier data))) ;;;
             if start_resolves env then ret true
             else throw "start rejected"
           else throw "createSpeechmaticsJWT rejected")
          (fun _ =>
             cleanupClient sid ;;;
             tell (EmitError "Connection error with speech service" sid) ;;;
             ret false)
    end
  else ret true.

Definition RecognitionStarted_message : RealtimeServerMessage :=
  {| message := RecognitionStarted; results := [] |}.

(** The polling loop.  [session.isConnected] can only be set by the
    listener of the session's client. *)
Definition wait_for_connection (env : environment) (sid : string) : M unit :=
  s <- lookup_session sid ;;
  match s with
  | Some s =>
      if isConnected s then ret tt
      else if has_client s && started_in_time env
      then
        update_session sid
          (fun s => fst (receiveMessage sid s RecognitionStarted_message))
      else throw "Connection timeout"
  | None => throw "Connection timeout"
  end.

(** [audio.split(',')[1]] *)
Fixpoint until_comma (s : string) : string :=
  match s with
  | EmptyString => EmptyString
  | String c s' => if (c =? ",")%char then EmptyString
                   else String c (until_comma s')
  end.

Fixpoint split_comma_1 (s : string) : option string :=
  match s with
  | EmptyString => None
  | String c s' => if (c =? ",")%char then Some (until_comma s')
                   else split_comma_1 s'
  end.

(** Decoding and forwarding of the chunk; the base64 text stands for
    the decoded buffer. *)
Definition forward (env : environment) (data : audioData_payload)
    (sid : string) : M unit :=
  match split_comma_1 (audio data) with
  | None => throw "TypeError"
  | Some base64 =>
      s <- lookup_session sid ;;
      match s with
      | Some {| client := Some c; isConnected := true |} =>
          tell (SendAudio c base64) ;;;
          if sendAudio_resolves env then ret tt
          else throw "sendAudio rejected"
      | _ => throw "Speech service not connected"
      end
  end.

(** [socket.on('audioData', ...)] *)
Definition audioData (env : environment) (data : audioData_payload)
  : M unit :=
  try_catch
    (let sid := or_default (sessionId data) in
     session <- getSession sid ;;
     continue <- connect env data sid session ;;
     if continue
     then wait_for_connection env sid ;;; forward env data sid
     else ret tt)
    (fun _ =>
       cleanupClient (or_default (sessionId data)) ;;;
       tell (EmitError "Error processing audio"
               (or_default (sessionId data)))).

(** [socket.on('stopRecording', ...)]; the argument is
    [data?.sessionId]. *)
Definition stopRecording (data_sessionId : option string) : M unit :=
  let sid := or_default data_sessionId in
  s <- lookup_session sid ;;
  match s with
  | Some s =>
      if has_client s
      then
        (if truthy (currentText s)
         then
           tell (final_segment (currentSpeaker s)
                   (formatText (trim (currentText s))) sid)
         else ret tt) ;;;
        cleanupClient sid
      else ret tt
  | None => ret tt
  end.

(** A message of the recogniser reaching the listener that was
    attached for session [sid]. *)
Definition deliver (sid : string) (evt : RealtimeServerMessage) : M unit :=
  s <- lookup_session sid ;;
  match s with
  | Some s =>
      let '(s', out) := receiveMessage sid s evt in
      fun w =>
        (Val tt,
         {| clients := <[sid := s']> (clients w);
            next_client := next_client w |},
         out)
  | None => ret tt
  end.



(** The transcriptions that an effect trace sends for one session. *)
Fixpoint transcriptions_of (sid : string) (out : list effect)
  : list (segment * bool) :=
  match out with
  | [] => []
  | EmitTranscription seg isPartial sid' :: out' =>
      if String.eqb sid' sid
      then (seg, isPartial) :: transcriptions_of sid out'
      else transcriptions_of sid out'
  | _ :: out' => transcriptions_of sid out'
  end.




End Multi.

(** ** Runs and relations of the statements *)

(** A message with one result whose first alternative carries the
    given speaker label and text. *)
Definition transcript (tag : message_tag) (spk text : string)
  : RealtimeServerMessage :=
  {| message := tag;
     results :=
       [ {| alternatives := [ {| content := text; speaker := Some spk |} ] |} ] |}.

Module Runs.
Import Multi.

(** A session at the moment [audioData] has stored a new client in it
    and attached the listener. *)
Definition listening (c : nat) : session :=
  {| client := Some c; isConnected := false; isConnecting := true;
     currentSpeaker := EmptyString; currentText := EmptyString; speakerTexts := ∅ |}.

(** The turn of the single-session server and of a session agree. *)
Definition same_turn (st : Single.state) (s : session) : Prop :=
  Single.currentSpeaker st = currentSpeaker s
  /\ Single.currentText st = currentText s.

(** A transcription of the single-session server with the session id
    added. *)
Definition tagged (sid : string) (t : Single.transcription) : effect :=
  EmitTranscription (Single.t_segment t) (Single.t_isPartial t) sid.

(** Text and speaker of a session are empty together. *)
Definition turn_consistent (s : session) : Prop :=
  truthy (currentText s) = truthy (currentSpeaker s).

(** An environment in which the key is set and every awaited call
    resolves. *)
Definition all_resolve (apiKey : string) : environment :=
  {| SPEECHMATICS_API_KEY := Some apiKey; jwt_resolves := true;
     start_resolves := true; started_in_time := true;
     sendAudio_resolves := true |}.

(** An environment without the key. *)
Definition key_missing : environment :=
  {| SPEECHMATICS_API_KEY := None; jwt_resolves := true;
     start_resolves := true; started_in_time := true;
     sendAudio_resolves := true |}.

(** An audio chunk for a session. *)
Definition chunk (sid : string) : audioData_payload :=
  {| sessionId := Some sid; audio := "data:audio/webm;base64,AAAA";
     doctorSpeakerIdentifier := None |}.

(** The session a failed key check leaves behind. *)
Definition stuck : session := set_connection_flags false true new_session.


Definition connection_of (r : result unit * connection * list effect)
  : connection := snd (fst r).

Definition effects_of (r : result unit * connection * list effect)
  : list effect := snd r.

End Runs.

(** ** Shapes of strings used in the proofs *)

Module Shape.

(** The first character is white space. *)
Definition ws_head (s : string) : bool :=
  match s with
  | EmptyString => false
  | String c _ => is_ws c
  end.

(** The last character is white space. *)
Fixpoint last_ws (s : string) : bool :=
  match s with
  | EmptyString => false
  | String c s' =>
      match s' with
      | EmptyString => is_ws c
      | String _ _ => last_ws s'
      end
  end.

(** No white space at either end. *)
Definition trimmed (s : string) : Prop :=
  ws_head s = false /\ last_ws s = false.

(** No white space next to a punctuation mark. *)
Fixpoint tight (s : string) : bool :=
  match s with
  | EmptyString => true
  | String c s' =>
      negb (is_ws c && starts_with_punct s')
      && negb (is_punct c && ws_head s')
      && tight s'
  end.

End Shape.

Import Shape.

(** ** Observations on texts and effect traces *)

Module Observe.
Import Multi.

(** The text without its white space. *)
Fixpoint remove_ws (s : string) : string :=
  match s with
  | EmptyString => EmptyString
  | String c s' => if is_ws c then remove_ws s' else String c (remove_ws s')
  end.

(** Every punctuation mark is the last character, or is followed by one
    space and then by a character that is not white space. *)
Fixpoint spaced (s : string) : bool :=
  match s with
  | EmptyString => true
  | String c s' =>
      (if is_punct c
       then match s' with
            | EmptyString => true
            | String d s'' => (d =? " ")%char && truthy s'' && negb (ws_head s'')
            end
       else true)
      && spaced s'
  end.

(** The texts of the final segments of a trace, one after the other. *)
Fixpoint final_texts (out : list effect) : string :=
  match out with
  | [] => EmptyString
  | EmitTranscription seg false _ :: out' => seg_text seg +:+ final_texts out'
  | _ :: out' => final_texts out'
  end.

(** The joined text of a final message that the listener can read. *)
Definition spoken_text (evt : RealtimeServerMessage) : string :=
  match message evt, contents (results evt) with
  | AddTranscript, Some parts => join parts
  | _, _ => EmptyString
  end.

Fixpoint spoken (evts : list RealtimeServerMessage) : string :=
  match evts with
  | [] => EmptyString
  | evt :: evts' => spoken_text evt +:+ spoken evts'
  end.

(** What a well-formed transcription for session [sid] looks like: a
    speaker label and a text that are not empty, the text without white
    space at either end. *)
Definition well_formed (sid : string) (e : effect) : Prop :=
  match e with
  | EmitTranscription seg _ sid' =>
      sid' = sid
      /\ truthy (seg_speaker seg) = true
      /\ truthy (seg_text seg) = true
      /\ trimmed (seg_text seg)
  | _ => False
  end.

(** The open turn is tidy: no white space at either end of its text, no
    terminal mark at its end, text and speaker empty together. *)
Definition tidy (s : session) : Prop :=
  trimmed (currentText s)
  /\ ends_with_terminal (currentText s) = false
  /\ truthy (currentText s) = truthy (currentSpeaker s).

End Observe.

(** ** The rest of the multi-session handlers *)

Module Teardown.
Import Multi.

(** The body shared by [stopRecording] and by the loop of [disconnect]:
    for a session with a client, send what is left of the open turn as a
    final segment, then [cleanupClient]. *)
Definition flush_and_cleanup (sid : string) : M unit :=
  s <- lookup_session sid ;;
  match s with
  | Some s =>
      if has_client s
      then
        (if truthy (currentText s)
         then
           tell (final_segment (currentSpeaker s)
                   (formatText (trim (currentText s))) sid)
         else ret tt) ;;;
        cleanupClient sid
      else ret tt
  | None => ret tt
  end.

(** [for (const [sessionId, session] of clients.entries()) body]; the
    order in which a [Map] hands out its entries is the order in which
    the keys were first inserted, which the map of the model does not
    record: it is given as [order]. *)
Fixpoint for_each (order : list string) (body : string -> M unit) : M unit :=
  match order with
  | [] => ret tt
  | sid :: order' => body sid ;;; for_each order' body
  end.

(** [socket.on('disconnect', ...)] *)
Definition disconnect (order : list string) : M unit :=
  for_each order flush_and_cleanup ;;;
  with_clients (fun _ => ∅).

(** The effects by which a handler sets up a recogniser client. *)
Definition is_connect_effect (e : effect) : bool :=
  match e with
  | NewClient _ | CreateJWT _ | Start _ _ => true
  | _ => false
  end.

Definition is_transcription (e : effect) : bool :=
  match e with
  | EmitTranscription _ _ _ => true
  | _ => false
  end.

(** An effect that, if it is sent to the caller, names session [sid]. *)
Definition own_effect (sid : string) (e : effect) : Prop :=
  match e with
  | EmitTranscription _ _ sid' | EmitError _ sid' => sid' = sid
  | _ => True
  end.

(** A handler that writes to no session but [sid] and names no other
    session in what it sends. *)
Definition local_to {A : Type} (sid : string) (m : M A) : Prop :=
  forall w,
    (forall k, k <> sid -> clients (snd (fst (m w))) !! k = clients w !! k)
    /\ Forall (own_effect sid) (snd (m w)).

(** No comma in the string. *)
Fixpoint comma_free (s : string) : bool :=
  match s with
  | EmptyString => true
  | String c s' => negb (c =? ",")%char && comma_free s'
  end.

(** The session that a first chunk leaves connected to client [c]. *)
Definition connected_session (c : nat) : session :=
  {| client := Some c; isConnected := true; isConnecting := false;
     currentSpeaker := EmptyString; currentText := EmptyString;
     speakerTexts := ∅ |}.

(** What a session still has to say when it is torn down by a stop
    command or by [disconnect]: with a client and a non-empty open turn,
    one final segment; nothing otherwise. *)
Definition last_words (o : option session) : list (segment * bool) :=
  match o with
  | Some s =>
      if has_client s && truthy (currentText s)
      then [({| seg_speaker := currentSpeaker s;
                seg_text := formatText (trim (currentText s)) |}, false)]
      else []
  | None => []
  end.

(** The connection with the entry of [sid] replaced and the next
    client handle set. *)
Definition put_session (sid : string) (s : session) (n : nat)
    (w : connection) : connection :=
  {| clients := <[sid := s]> (clients w); next_client := n |}.

End Teardown.

(** ** The socket handlers of the single-session server *)

Module SingleServer.
Import Single.

(** What the caller connection and the recogniser client are asked to
    do, in program order. *)
Inductive effect :=
| Emit (t : transcription)
| EmitError (msg : string)
| NewClient (c : nat)
| CreateJWT (apiKey : string)
| Start (c : nat)
| SendAudio (c : nat) (base64 : string)
| StopRecognition (c : nat).

(** The closure state of one [io.on('connection', ...)] callback, and
    the next unused client handle. *)
Record server := {
  vars : state;
  next_client : nat
}.

Definition fresh_server : server := {| vars := initial; next_client := 0 |}.

(** What the environment answers during one handler invocation. *)
Record environment := {
  SPEECHMATICS_API_KEY : option string;
  jwt_resolves : bool;
  start_resolves : bool;
  sendAudio_resolves : bool;
  stopRecognition_resolves : bool
}.

(** How an invocation ends: it returns a value, it throws, or it is
    left in the loop that looks at [isConnected] every 100 ms, which has
    no timeout and ends only when another invocation sets the flag. *)
Inductive result (A : Type) :=
| Val (a : A)
| Thrown (err : string)
| Polling.
Arguments Val {A} a.
Arguments Thrown {A} err.
Arguments Polling {A}.

Definition H (A : Type) : Type := server -> result A * server * list effect.

Definition ret {A} (a : A) : H A := fun sv => (Val a, sv, []).

Definition bind {A B} (m : H A) (k : A -> H B) : H B :=
  fun sv =>
    match m sv with
    | (Val a, sv1, out1) =>
        let '(r, sv2, out2) := k a sv1 in (r, sv2, (out1 ++ out2)%list)
    | (Thrown e, sv1, out1) => (Thrown e, sv1, out1)
    | (Polling, sv1, out1) => (Polling, sv1, out1)
    end.

Definition throw {A} (err : string) : H A := fun sv => (Thrown err, sv, []).

Definition poll {A} : H A := fun sv => (Polling, sv, []).

Definition tell (e : effect) : H unit := fun sv => (Val tt, sv, [e]).

Definition try_catch {A} (m : H A) (h : string -> H A) : H A :=
  fun sv =>
    match m sv with
    | (Thrown e, sv1, out1) =>
        let '(r, sv2, out2) := h e sv1 in (r, sv2, (out1 ++ out2)%list)
    | other => other
    end.

Notation "x <- m ;; k" := (bind m (fun x => k))
  (at level 100, m at next level, right associativity).
Notation "m ;;; k" := (bind m (fun _ => k))
  (at level 100, right associativity).

Definition get : H state := fun sv => (Val (vars sv), sv, []).

Definition modify (f : state -> state) : H unit :=
  fun sv => (Val tt, {| vars := f (vars sv); next_client := next_client sv |}, []).

Definition set_client (c : option nat) (st : state) : state :=
  {| client := c; isConnected := isConnected st;
     currentSpeaker := currentSpeaker st; currentText := currentText st;
     speakerTexts := speakerTexts st |}.

Definition set_isConnected (b : bool) (st : state) : state :=
  {| client := client st; isConnected := b;
     currentSpeaker := currentSpeaker st; currentText := currentText st;
     speakerTexts := speakerTexts st |}.

(** [client = null; currentSpeaker = ''; currentText = '';
    speakerTexts.clear()] *)
Definition release (st : state) : state :=
  {| client := None; isConnected := isConnected st;
     currentSpeaker := EmptyString; currentText := EmptyString;
     speakerTexts := ∅ |}.

(** [client = new RealtimeClient(...)], with the listener attached. *)
Definition new_client : H nat :=
  fun sv =>
    let c := next_client sv in
    (Val c, {| vars := set_client (Some c) (vars sv); next_client := S c |},
     [NewClient c]).

(** The block guarded by [!client]. *)
Definition connect (env : environment) : H unit :=
  st <- get ;;
  match client st with
  | Some _ => ret tt
  | None =>
      match Multi.truthy_opt (SPEECHMATICS_API_KEY env) with
      | None => throw "SPEECHMATICS_API_KEY not set"
      | Some apiKey =>
          c <- new_client ;;
          try_catch
            (tell (CreateJWT apiKey) ;;;
             if jwt_resolves env
             then
               tell (Start c) ;;;
               if start_resolves env then modify (set_isConnected true)
               else throw "start rejected"
             else throw "createSpeechmaticsJWT rejected")
            (fun error =>
               tell (EmitError "Connection error with speech service") ;;;
               throw error)
      end
  end.

(** The loop [checkConnection]. *)
Definition wait_for_connection : H unit :=
  st <- get ;;
  if isConnected st then ret tt else poll.

Definition forward (env : environment) (audio : string) : H unit :=
  match Multi.split_comma_1 audio with
  | None => throw "TypeError"
  | Some base64 =>
      st <- get ;;
      match client st, isConnected st with
      | Some c, true =>
          tell (SendAudio c base64) ;;;
          if sendAudio_resolves env then ret tt
          else throw "sendAudio rejected"
      | _, _ => throw "Speech service not connected"
      end
  end.

(** [socket.on('audioData', ...)] *)
Definition audioData (env : environment) (audio : string) : H unit :=
  try_catch
    (connect env ;;; wait_for_connection ;;; forward env audio)
    (fun _ => tell (EmitError "Error processing audio")).

(** The final segment for what is left of the open turn. *)
Definition remaining (st : state) : list effect :=
  if truthy (currentText st)
  then [Emit {| t_segment :=
                  {| seg_speaker := currentSpeaker st;
                     seg_text := formatText (trim (currentText st)) |};
                t_isPartial := false |}]
  else [].

Fixpoint tell_all (out : list effect) : H unit :=
  match out with
  | [] => ret tt
  | e :: out' => tell e ;;; tell_all out'
  end.

(** [socket.on('stopRecording', ...)] *)
Definition stopRecording (env : environment) : H unit :=
  st <- get ;;
  match client st with
  | Some c =>
      try_catch
        (tell_all (remaining st) ;;;
         tell (StopRecognition c) ;;;
         if stopRecognition_resolves env then modify release
         else throw "stopRecognition rejected")
        (fun _ => ret tt)
  | None => ret tt
  end.

(** [socket.on('disconnect', ...)] *)
Definition disconnect : H unit :=
  st <- get ;;
  match client st with
  | Some c =>
      tell_all (remaining st) ;;;
      tell (StopRecognition c) ;;;
      modify release
  | None => ret tt
  end.

(** A message of the recogniser reaching the listener. *)
Definition deliver (evt : RealtimeServerMessage) : H unit :=
  fun sv =>
    let '(st', out) := receiveMessage (vars sv) evt in
    (Val tt, {| vars := st'; next_client := next_client sv |}, map Emit out).

End SingleServer.

(** Evaluation of a handler of the single-session server. *)
Ltac single_run :=
  cbv [SingleServer.audioData SingleServer.stopRecording SingleServer.disconnect
       SingleServer.connect SingleServer.wait_for_connection
       SingleServer.forward SingleServer.try_catch SingleServer.bind
       SingleServer.get SingleServer.modify SingleServer.new_client
       SingleServer.ret SingleServer.throw SingleServer.tell SingleServer.poll];
  cbn [SingleServer.vars SingleServer.next_client Single.client
       Single.isConnected Single.currentSpeaker Single.currentText
       Single.speakerTexts SingleServer.set_client SingleServer.set_isConnected
       SingleServer.release app fst snd].

(** * Facts about the string primitives *)

Lemma punct_not_ws c : is_punct c = true -> is_ws c = false.
Proof. destruct c as [[] [] [] [] [] [] [] []]; vm_compute; congruence. Qed.

Lemma line_terminator_ws c : is_line_terminator c = true -> is_ws c = true.
Proof. destruct c as [[] [] [] [] [] [] [] []]; vm_compute; congruence. Qed.

Lemma terminal_punct c : is_terminal c = true -> is_punct c = true.
Proof. destruct c as [[] [] [] [] [] [] [] []]; vm_compute; congruence. Qed.

Lemma truthy_true s : truthy s = true <-> s <> EmptyString.
Proof. destruct s; simpl; split; congruence. Qed.

Lemma truthy_false s : truthy s = false <-> s = EmptyString.
Proof. destruct s; simpl; split; congruence. Qed.

Lemma drop_ws_length s : String.length (drop_ws s) <= String.length s.
Proof.
  induction s as [|c s IH]; simpl; [lia|].
  destruct (is_ws c); simpl; lia.
Qed.

Lemma drop_ws_id s : ws_head s = false -> drop_ws s = s.
Proof. destruct s as [|c s]; simpl; [reflexivity|]. now intros ->. Qed.

Lemma ws_head_drop_ws s : ws_head (drop_ws s) = false.
Proof.
  induction s as [|c s IH]; simpl; [reflexivity|].
  destruct (is_ws c) eqn:E; [exact IH|]. simpl. exact E.
Qed.

Lemma match_punct_ws_length s p rest :
  match_punct_ws s = Some (p, rest) -> String.length rest < String.length s.
Proof.
  unfold match_punct_ws. intros H.
  pose proof (drop_ws_length s) as Hs.
  destruct (drop_ws s) as [|q r]; [discriminate|].
  destruct (is_punct q); [|discriminate].
  injection H as <- <-.
  pose proof (drop_ws_length r). simpl in Hs. lia.
Qed.

Lemma match_punct_ws_some s p rest :
  match_punct_ws s = Some (p, rest) ->
  is_punct p = true /\ ws_head rest = false.
Proof.
  unfold match_punct_ws. intros H.
  destruct (drop_ws s) as [|q r]; [discriminate|].
  destruct (is_punct q) eqn:E; [|discriminate].
  injection H as <- <-. split; [exact E | apply ws_head_drop_ws].
Qed.

Lemma match_punct_ws_punct c s :
  is_punct c = true -> match_punct_ws (String c s) = Some (c, drop_ws s).
Proof.
  intros H. unfold match_punct_ws. simpl.
  rewrite (punct_not_ws _ H), H. reflexivity.
Qed.

Lemma match_punct_ws_skip c s :
  is_ws c = true -> match_punct_ws (String c s) = match_punct_ws s.
Proof. intros H. unfold match_punct_ws. simpl. now rewrite H. Qed.

Lemma match_punct_ws_other c s :
  is_ws c = false -> is_punct c = false -> match_punct_ws (String c s) = None.
Proof. intros H1 H2. unfold match_punct_ws. simpl. now rewrite H1, H2. Qed.

Lemma match_punct_ws_none s :
  match_punct_ws s = None -> starts_with_punct s = false.
Proof.
  destruct s as [|c s]; [reflexivity|]. simpl. intros H.
  destruct (is_punct c) eqn:E; [|reflexivity].
  rewrite (match_punct_ws_punct _ _ E) in H. discriminate.
Qed.

(** The fuel of the scan is enough as soon as it covers the subject. *)
Lemma strip_punct_ws_fuel_enough n m s :
  String.length s <= n -> String.length s <= m ->
  strip_punct_ws_fuel n s = strip_punct_ws_fuel m s.
Proof.
  revert m s. induction n as [|n IH]; intros m s Hn Hm.
  - destruct s; simpl in Hn; [|lia]. now destruct m.
  - destruct m as [|m].
    + destruct s; simpl in Hm; [reflexivity|lia].
    + cbn [strip_punct_ws_fuel]. destruct s as [|c s]; [reflexivity|].
      destruct (match_punct_ws (String c s)) as [[p rest]|] eqn:E.
      * apply match_punct_ws_length in E. f_equal. apply IH; lia.
      * simpl in Hn, Hm. f_equal. apply IH; lia.
Qed.

Lemma strip_punct_ws_nil : strip_punct_ws EmptyString = EmptyString.
Proof. reflexivity. Qed.

Lemma strip_punct_ws_cons c s :
  strip_punct_ws (String c s) =
  match match_punct_ws (String c s) with
  | Some (p, rest) => String p (strip_punct_ws rest)
  | None => String c (strip_punct_ws s)
  end.
Proof.
  unfold strip_punct_ws at 1. cbn [String.length strip_punct_ws_fuel].
  destruct (match_punct_ws (String c s)) as [[p rest]|] eqn:E.
  - apply match_punct_ws_length in E. f_equal.
    apply strip_punct_ws_fuel_enough; simpl in E; lia.
  - reflexivity.
Qed.

(** Induction along the scan. *)
Lemma strip_punct_ws_ind (P : string -> Prop) :
  P EmptyString ->
  (forall c s p rest,
      match_punct_ws (String c s) = Some (p, rest) -> P rest -> P (String c s)) ->
  (forall c s, match_punct_ws (String c s) = None -> P s -> P (String c s)) ->
  forall s, P s.
Proof.
  intros Hnil Hsome Hnone s.
  remember (String.length s) as n eqn:Hn.
  revert s Hn. induction n as [n IH] using lt_wf_ind. intros s ->.
  destruct s as [|c s]; [exact Hnil|].
  destruct (match_punct_ws (String c s)) as [[p rest]|] eqn:E.
  - apply (Hsome _ _ _ _ E).
    apply (IH (String.length rest)); [|reflexivity].
    now apply match_punct_ws_length in E.
  - apply (Hnone _ _ E). apply (IH (String.length s)); [simpl; lia|reflexivity].
Qed.

Lemma strip_punct_ws_truthy s : truthy (strip_punct_ws s) = truthy s.
Proof.
  destruct s as [|c s]; [reflexivity|]. rewrite strip_punct_ws_cons.
  now destruct (match_punct_ws (String c s)) as [[p rest]|].
Qed.

Lemma ws_head_strip_punct_ws s :
  ws_head s = false -> ws_head (strip_punct_ws s) = false.
Proof.
  destruct s as [|c s]; [reflexivity|]. intros H. rewrite strip_punct_ws_cons.
  destruct (match_punct_ws (String c s)) as [[p rest]|] eqn:E; [|exact H].
  apply match_punct_ws_some in E as [Hp _]. simpl. now apply punct_not_ws.
Qed.

Lemma starts_with_punct_strip_punct_ws s :
  match_punct_ws s = None -> starts_with_punct (strip_punct_ws s) = false.
Proof.
  destruct s as [|c s]; [reflexivity|]. intros H. rewrite strip_punct_ws_cons, H.
  now apply match_punct_ws_none in H.
Qed.

(** After the first replacement no white space touches a mark. *)
Lemma tight_strip_punct_ws s : tight (strip_punct_ws s) = true.
Proof.
  induction s as [| c s p rest E IH | c s E IH] using strip_punct_ws_ind.
  - reflexivity.
  - rewrite strip_punct_ws_cons, E. cbn [tight].
    apply match_punct_ws_some in E as [Hp Hrest].
    rewrite (punct_not_ws _ Hp), (ws_head_strip_punct_ws _ Hrest), IH.
    now rewrite andb_false_r.
  - rewrite strip_punct_ws_cons, E. cbn [tight]. rewrite IH.
    pose proof (match_punct_ws_none _ E) as Hc. simpl in Hc. rewrite Hc.
    destruct (is_ws c) eqn:Hw; [|reflexivity].
    rewrite (match_punct_ws_skip _ _ Hw) in E.
    now rewrite (starts_with_punct_strip_punct_ws _ E).
Qed.

Lemma ws_head_space_after_punct s :
  ws_head (space_after_punct s) = ws_head s.
Proof.
  destruct s as [|c s]; [reflexivity|]. simpl.
  now destruct (is_punct c && lookahead_any s).
Qed.

Lemma lookahead_any_tight s :
  ws_head s = false -> lookahead_any s = truthy s.
Proof.
  destruct s as [|d s]; [reflexivity|]. simpl. intros H.
  destruct (is_line_terminator d) eqn:E; [|reflexivity].
  apply line_terminator_ws in E. congruence.
Qed.

Lemma match_punct_ws_space_after_punct s :
  tight s = true -> starts_with_punct s = false ->
  match_punct_ws (space_after_punct s) = None.
Proof.
  induction s as [|c s IH]; [reflexivity|].
  cbn [tight starts_with_punct space_after_punct]. intros Ht Hc.
  rewrite Hc in *. cbn [andb] in *.
  apply andb_prop in Ht as [Ht Hs]. apply andb_prop in Ht as [Ht _].
  destruct (is_ws c) eqn:Hw.
  - rewrite (match_punct_ws_skip _ _ Hw). apply IH; [exact Hs|].
    simpl in Ht. now destruct (starts_with_punct s).
  - now apply match_punct_ws_other.
Qed.

(** The first replacement undoes the second on tight text. *)
Lemma strip_punct_ws_space_after_punct s :
  tight s = true -> strip_punct_ws (space_after_punct s) = s.
Proof.
  induction s as [|c s IH]; [reflexivity|].
  cbn [tight space_after_punct]. intros Ht.
  apply andb_prop in Ht as [Ht Hs]. apply andb_prop in Ht as [Ht1 Ht2].
  specialize (IH Hs).
  destruct (is_punct c) eqn:Hp; cbn [andb] in *.
  - apply negb_true_iff in Ht2.
    rewrite (lookahead_any_tight _ Ht2).
    destruct s as [|d s]; cbn [truthy].
    + cbn [space_after_punct].
      now rewrite strip_punct_ws_cons, (match_punct_ws_punct _ _ Hp).
    + rewrite strip_punct_ws_cons, (match_punct_ws_punct _ _ Hp).
      cbn [drop_ws]. replace (is_ws " ") with true by reflexivity.
      rewrite drop_ws_id by now rewrite ws_head_space_after_punct.
      now rewrite IH.
  - rewrite strip_punct_ws_cons.
    assert (match_punct_ws (String c (space_after_punct s)) = None) as ->.
    { destruct (is_ws c) eqn:Hw.
      - rewrite (match_punct_ws_skip _ _ Hw).
        apply match_punct_ws_space_after_punct; [exact Hs|].
        simpl in Ht1. now destruct (starts_with_punct s).
      - now apply match_punct_ws_other. }
    now rewrite IH.
Qed.

Lemma last_ws_tail c s : last_ws (String c s) = false -> last_ws s = false.
Proof. destruct s; [reflexivity|]. now cbn [last_ws]. Qed.

Lemma last_ws_cons c s :
  last_ws (String c s) = if truthy s then last_ws s else is_ws c.
Proof. now destruct s. Qed.

Lemma last_ws_drop_ws s : last_ws s = false -> last_ws (drop_ws s) = false.
Proof.
  induction s as [|c s IH]; [reflexivity|]. intros H. cbn [drop_ws].
  destruct (is_ws c) eqn:E; [|exact H].
  apply IH. rewrite last_ws_cons in H. destruct s; [simpl in H; congruence|exact H].
Qed.

Lemma trim_end_id s : last_ws s = false -> trim_end s = s.
Proof.
  induction s as [|c s IH]; [reflexivity|]. intros H. cbn [trim_end].
  rewrite last_ws_cons in H. destruct s as [|d s].
  - simpl in *. now rewrite H.
  - cbn [truthy] in H. now rewrite (IH H).
Qed.

Lemma last_ws_trim_end s : last_ws (trim_end s) = false.
Proof.
  induction s as [|c s IH]; [reflexivity|]. cbn [trim_end].
  destruct (trim_end s) as [|d r].
  - destruct (is_ws c) eqn:E; [reflexivity|]. simpl. exact E.
  - rewrite last_ws_cons. exact IH.
Qed.

Lemma ws_head_trim_end s : ws_head s = false -> ws_head (trim_end s) = false.
Proof.
  destruct s as [|c s]; [reflexivity|]. cbn [trim_end ws_head]. intros H.
  destruct (trim_end s); [now rewrite H|exact H].
Qed.

Lemma trimmed_trim s : trimmed (trim s).
Proof.
  split.
  - apply ws_head_trim_end, ws_head_drop_ws.
  - apply last_ws_trim_end.
Qed.

Lemma trim_id s : trimmed s -> trim s = s.
Proof.
  intros [H1 H2]. unfold trim. rewrite (drop_ws_id _ H1). now apply trim_end_id.
Qed.

Lemma truthy_trim_end s : truthy s = true -> ws_head s = false -> truthy (trim_end s) = true.
Proof.
  destruct s as [|c s]; [discriminate|]. cbn [trim_end ws_head]. intros _ H.
  destruct (trim_end s); [now rewrite H|reflexivity].
Qed.

Lemma last_ws_strip_punct_ws s :
  last_ws s = false -> last_ws (strip_punct_ws s) = false.
Proof.
  induction s as [| c s p rest E IH | c s E IH] using strip_punct_ws_ind.
  - reflexivity.
  - intros H. rewrite strip_punct_ws_cons, E, last_ws_cons.
    pose proof (match_punct_ws_some _ _ _ E) as [Hp _].
    destruct (truthy (strip_punct_ws rest)); [|now apply punct_not_ws].
    apply IH. unfold match_punct_ws in E.
    apply last_ws_drop_ws in H.
    destruct (drop_ws (String c s)) as [|q r]; [discriminate|].
    destruct (is_punct q); [|discriminate]. injection E as _ <-.
    now apply last_ws_drop_ws, (last_ws_tail q).
  - intros H. rewrite strip_punct_ws_cons, E, last_ws_cons.
    rewrite last_ws_cons in H. rewrite strip_punct_ws_truthy.
    destruct (truthy s); [now apply IH|exact H].
Qed.

Lemma truthy_space_after_punct s : truthy (space_after_punct s) = truthy s.
Proof.
  destruct s as [|c s]; [reflexivity|]. simpl.
  now destruct (is_punct c && lookahead_any s).
Qed.

Lemma last_ws_space_after_punct s :
  last_ws s = false -> last_ws (space_after_punct s) = false.
Proof.
  induction s as [|c s IH]; [reflexivity|]. intros H.
  rewrite last_ws_cons in H. cbn [space_after_punct].
  destruct (is_punct c && lookahead_any s) eqn:E.
  - apply andb_prop in E as [_ E].
    assert (truthy s = true) as Hs by (now destruct s).
    rewrite Hs in H.
    rewrite !last_ws_cons, truthy_space_after_punct, Hs. now apply IH.
  - rewrite last_ws_cons, truthy_space_after_punct.
    destruct (truthy s); [now apply IH|exact H].
Qed.

Lemma trimmed_strip_punct_ws s : trimmed s -> trimmed (strip_punct_ws s).
Proof.
  intros [H1 H2]. split.
  - now apply ws_head_strip_punct_ws.
  - now apply last_ws_strip_punct_ws.
Qed.

Lemma trimmed_space_after_punct s : trimmed s -> trimmed (space_after_punct s).
Proof.
  intros [H1 H2]. split.
  - now rewrite ws_head_space_after_punct.
  - now apply last_ws_space_after_punct.
Qed.

(** On trimmed text the final [trim] of the chain has nothing to do. *)
Lemma formatText_trimmed text :
  trimmed text -> formatText text = space_after_punct (strip_punct_ws text).
Proof.
  intros H. unfold formatText.
  now apply trim_id, trimmed_space_after_punct, trimmed_strip_punct_ws.
Qed.

Lemma trimmed_formatText text : trimmed (formatText text).
Proof. apply trimmed_trim. Qed.

(** Formatting a non-empty trimmed text gives a non-empty text. *)
Lemma truthy_formatText text :
  trimmed text -> truthy (formatText text) = truthy text.
Proof.
  intros H. rewrite (formatText_trimmed _ H).
  now rewrite truthy_space_after_punct, strip_punct_ws_truthy.
Qed.

(** A formatted trimmed text is a fixed point of the chain. *)
Lemma formatText_fixed text :
  trimmed text -> formatText (formatText text) = formatText text.
Proof.
  intros H. rewrite (formatText_trimmed _ H).
  pose proof (trimmed_space_after_punct _ (trimmed_strip_punct_ws _ H)) as Hv.
  rewrite (formatText_trimmed _ Hv).
  now rewrite strip_punct_ws_space_after_punct by apply tight_strip_punct_ws.
Qed.

Lemma formatText_trim_fixed s :
  formatText (trim (formatText (trim s))) = formatText (trim s).
Proof.
  rewrite (trim_id (formatText (trim s))) by apply trimmed_formatText.
  apply formatText_fixed, trimmed_trim.
Qed.

(** C7.  Text normalisation (trim, delete the white space around the
    marks [. , ? !], put one space after a mark that is followed by more
    text, trim) is idempotent: normalising its own output returns that
    output. *)
Theorem normalize_idempotent (s : string) :
  normalize (normalize s) = normalize s.
Proof. unfold normalize. apply formatText_trim_fixed. Qed.

(** The same for the fragments of an event. *)
Lemma normalize_fragments_fixed (parts : list string) :
  normalize_fragments [normalize_fragments parts] = normalize_fragments parts.
Proof.
  unfold normalize_fragments at 1. unfold join. cbn [concat].
  unfold normalize_fragments, normalize. apply formatText_trim_fixed.
Qed.

(** Worked cases of the formatting chain. *)
Example formatText_spacing :
  formatText "Hello ,  world .How are you ?" = "Hello, world. How are you?".
Proof. reflexivity. Qed.

Example formatText_consecutive_marks :
  formatText "well,, yes" = "well, , yes" /\ formatText "what?!" = "what? !".
Proof. split; reflexivity. Qed.

Example trim_both_ends : trim "  a b  " = "a b".
Proof. reflexivity. Qed.

(** * The speaker-turn segmenter *)

Import Multi Runs.

Lemma truthy_append a b : truthy a = true -> truthy (a +:+ b) = true.
Proof. now destruct a. Qed.

Lemma truthy_resolve_speaker rs : truthy (resolve_speaker rs) = true.
Proof.
  unfold resolve_speaker.
  destruct rs as [|[[|[ct [sp|]] ?]] ?]; try reflexivity.
  cbn. now destruct (truthy sp) eqn:E.
Qed.

Lemma string_eqb_false a b : String.eqb a b = false <-> a <> b.
Proof. apply String.eqb_neq. Qed.

(** The listener on a message that carries text: the two replacements
    of the text, then one of the two branches. *)
Lemma receiveMessage_final sid s evt parts :
  message evt = AddTranscript ->
  contents (results evt) = Some parts ->
  truthy (trim (join parts)) = true ->
  receiveMessage sid s evt =
  let '(s1, out1) :=
    accumulate_final sid (resolve_speaker (results evt))
      (normalize_fragments parts) s in
  let '(s2, out2) := close_on_punctuation sid s1 in
  (s2, (out1 ++ out2)%list).
Proof.
  intros Hm Hc Ht. unfold receiveMessage. rewrite Hm, Hc, Ht.
  now destruct (isConnected s).
Qed.

Lemma receiveMessage_partial sid s evt parts :
  message evt = AddPartialTranscript ->
  contents (results evt) = Some parts ->
  truthy (trim (join parts)) = true ->
  receiveMessage sid s evt =
  partial_preview sid (resolve_speaker (results evt))
    (normalize_fragments parts) s.
Proof.
  intros Hm Hc Ht. unfold receiveMessage. rewrite Hm, Hc, Ht.
  now destruct (isConnected s).
Qed.

(** A message without text changes nothing and sends nothing. *)
Lemma receiveMessage_no_text sid s evt parts :
  message evt = AddTranscript \/ message evt = AddPartialTranscript ->
  contents (results evt) = Some parts ->
  truthy (trim (join parts)) = false ->
  receiveMessage sid s evt = (s, []).
Proof.
  intros Hm Hc Ht. unfold receiveMessage. rewrite Hc, Ht.
  destruct Hm as [-> | ->]; now destruct (isConnected s).
Qed.

(** A message with a result that has no alternative makes the listener
    throw before it has changed or sent anything. *)
Lemma receiveMessage_throws sid s evt :
  message evt = AddTranscript \/ message evt = AddPartialTranscript ->
  contents (results evt) = None ->
  receiveMessage sid s evt = (s, []).
Proof.
  intros Hm Hc. unfold receiveMessage. rewrite Hc.
  destruct Hm as [-> | ->]; now destruct (isConnected s).
Qed.

(** Messages that are not transcripts leave the turn alone. *)
Lemma receiveMessage_other sid s evt :
  message evt = RecognitionStarted \/ message evt = OtherMessage ->
  snd (receiveMessage sid s evt) = []
  /\ currentSpeaker (fst (receiveMessage sid s evt)) = currentSpeaker s
  /\ currentText (fst (receiveMessage sid s evt)) = currentText s.
Proof.
  intros Hm. unfold receiveMessage.
  destruct Hm as [-> | ->]; now destruct (isConnected s).
Qed.

(** C1.  The final stream [{S1, "Hello"}; {S1, "there."}] on a freshly
    attached segmenter: the first event sends nothing and opens the turn
    (S1, "Hello"); the second sends the one final segment
    (S1, "Hello there.") and leaves speaker and text cleared; the whole
    run sends exactly that segment. *)
Theorem scenario_hello_there (sid : string) (c : nat) :
  receiveMessage sid (listening c) (transcript AddTranscript "S1" "Hello")
  = (set_turn "S1" "Hello" (listening c), [])
  /\ ends_with_terminal "Hello there." = true
  /\ receiveMessage sid (set_turn "S1" "Hello" (listening c))
       (transcript AddTranscript "S1" "there.")
     = (set_turn EmptyString EmptyString (listening c), [final_segment "S1" "Hello there." sid])
  /\ receiveAll sid (listening c)
       [transcript AddTranscript "S1" "Hello";
        transcript AddTranscript "S1" "there."]
     = (listening c, [final_segment "S1" "Hello there." sid])
  /\ currentText (listening c) = EmptyString /\ currentSpeaker (listening c) = EmptyString.
Proof. repeat split. Qed.

(** C2 as stated fails: with the turn (S1, "I feel fine") open, a final
    event of speaker S2 whose text is blank sends nothing. *)
Lemma speaker_change_blank_event_counterexample :
  ~ (let s := set_turn "S1" "I feel fine" (listening 0) in
     let evt := transcript AddTranscript "S2" " " in
     message evt = AddTranscript ->
     resolve_speaker (results evt) <> currentSpeaker s ->
     currentSpeaker s <> EmptyString ->
     currentText s <> EmptyString ->
     In (final_segment "S1" "I feel fine" "a")
        (snd (receiveMessage "a" s evt))).
Proof.
  intros H. apply H; try reflexivity; try discriminate.
Qed.

(** C2, amended.  A final event whose text is empty after joining and
    trimming sends nothing and changes nothing.  A final event that
    carries text, whose speaker differs from that of the open turn while
    the turn's text is not empty, first sends the open turn as a final
    segment (old speaker, trimmed text) and makes the event's speaker
    and normalised text the turn; the closing rule for terminal
    punctuation is then applied to that turn: it stays open when the
    normalised text does not end with a terminal mark, and is sent as a
    second final segment and cleared when it does.  The stream
    [{S1, "I feel fine"}; {S2, "Good to hear"}] sends exactly
    (S1, "I feel fine") and leaves the turn (S2, "Good to hear") open. *)
Theorem speaker_change_flushes_turn
    (sid : string) (s : session) (evt : RealtimeServerMessage)
    (parts : list string) :
  message evt = AddTranscript ->
  contents (results evt) = Some parts ->
  (trim (join parts) = EmptyString -> receiveMessage sid s evt = (s, []))
  /\ (trim (join parts) <> EmptyString ->
      resolve_speaker (results evt) <> currentSpeaker s ->
      currentText s <> EmptyString ->
      let speaker := resolve_speaker (results evt) in
      let opened := set_turn speaker (normalize_fragments parts) s in
      let flushed :=
        final_segment (currentSpeaker s) (trim (currentText s)) sid in
      accumulate_final sid speaker (normalize_fragments parts) s
      = (opened, [flushed])
      /\ receiveMessage sid s evt
         = (fst (close_on_punctuation sid opened),
            flushed :: snd (close_on_punctuation sid opened))
      /\ (ends_with_terminal (normalize_fragments parts) = false ->
          receiveMessage sid s evt = (opened, [flushed]))
      /\ (ends_with_terminal (normalize_fragments parts) = true ->
          receiveMessage sid s evt
          = (set_turn EmptyString EmptyString s,
             [flushed;
              final_segment speaker (trim (normalize_fragments parts)) sid]))
      /\ forall c,
          receiveAll sid (listening c)
            [transcript AddTranscript "S1" "I feel fine";
             transcript AddTranscript "S2" "Good to hear"]
          = (set_turn "S2" "Good to hear" (listening c),
             [final_segment "S1" "I feel fine" sid])).
Proof.
  intros Hm Hc. split.
  - intros Hblank. apply truthy_false in Hblank.
    apply (receiveMessage_no_text _ _ _ _ (or_introl Hm) Hc Hblank).
  - intros Ht Hsp Htx speaker opened flushed.
    apply truthy_true in Ht. apply truthy_true in Htx.
    apply string_eqb_false in Hsp.
    assert (accumulate_final sid speaker (normalize_fragments parts) s
            = (opened, [flushed])) as Hacc.
    { unfold accumulate_final, opened, flushed, speaker. now rewrite Hsp, Htx. }
    assert (receiveMessage sid s evt
            = (fst (close_on_punctuation sid opened),
               flushed :: snd (close_on_punctuation sid opened))) as Hrm.
    { rewrite (receiveMessage_final _ _ _ _ Hm Hc Ht). fold speaker.
      rewrite Hacc. now destruct (close_on_punctuation sid opened). }
    split; [exact Hacc|]. split; [exact Hrm|]. split; [|split].
    + intros Hend. rewrite Hrm. unfold close_on_punctuation.
      cbn [opened currentText set_turn]. now rewrite Hend.
    + intros Hend. rewrite Hrm. unfold close_on_punctuation.
      cbn [opened currentText set_turn]. now rewrite Hend.
    + intros c. reflexivity.
Qed.

Lemma speaker_change_flushes_turn_witness :
  receiveMessage "a" (set_turn "S1" "I feel fine" (listening 0))
    (transcript AddTranscript "S2" "Good to hear")
  = (set_turn "S2" "Good to hear" (listening 0),
     [final_segment "S1" "I feel fine" "a"]).
Proof.
  refine (proj1 (proj2 (proj2
            (proj2
               (speaker_change_flushes_turn "a"
                  (set_turn "S1" "I feel fine" (listening 0))
                  (transcript AddTranscript "S2" "Good to hear")
                  ["Good to hear"] _ _) _ _ _))) _);
    try reflexivity; vm_compute; discriminate.
Defined.

(** C5.  A partial event whose speaker differs from the non-empty
    speaker of the open turn sends nothing and changes nothing; a
    partial event sends a preview only when its speaker is the turn's
    speaker or no turn is open. *)
Theorem partial_other_speaker_suppressed
    (sid : string) (s : session) (evt : RealtimeServerMessage) :
  message evt = AddPartialTranscript ->
  (currentSpeaker s <> EmptyString ->
   resolve_speaker (results evt) <> currentSpeaker s ->
   receiveMessage sid s evt = (s, []))
  /\ (snd (receiveMessage sid s evt) <> [] ->
      resolve_speaker (results evt) = currentSpeaker s
      \/ currentSpeaker s = EmptyString).
Proof.
  intros Hm.
  destruct (contents (results evt)) as [parts|] eqn:Hc;
    [destruct (truthy (trim (join parts))) eqn:Ht|].
  - rewrite (receiveMessage_partial _ _ _ _ Hm Hc Ht). unfold partial_preview.
    split.
    + intros Hne Hsp. apply truthy_true in Hne. apply string_eqb_false in Hsp.
      now rewrite Hsp, Hne.
    + destruct (String.eqb_spec (resolve_speaker (results evt)) (currentSpeaker s))
        as [Heq|Hneq]; [now left|].
      destruct (truthy (currentSpeaker s)) eqn:Hsp;
        [|apply truthy_false in Hsp; now right].
      cbn. congruence.
  - rewrite (receiveMessage_no_text _ _ _ _ (or_intror Hm) Hc Ht).
    split; [reflexivity | cbn; congruence].
  - rewrite (receiveMessage_throws _ _ _ (or_intror Hm) Hc).
    split; [reflexivity | cbn; congruence].
Qed.

Lemma partial_other_speaker_suppressed_witness :
  receiveMessage "a" (set_turn "S1" "I feel fine" (listening 0))
    (transcript AddPartialTranscript "S2" "Good")
  = (set_turn "S1" "I feel fine" (listening 0), []).
Proof.
  refine (proj1
            (partial_other_speaker_suppressed "a"
               (set_turn "S1" "I feel fine" (listening 0))
               (transcript AddPartialTranscript "S2" "Good") _) _ _);
    try reflexivity; vm_compute; discriminate.
Defined.

Lemma truthy_normalize_fragments parts :
  truthy (normalize_fragments parts) = truthy (trim (join parts)).
Proof. apply truthy_formatText, trimmed_trim. Qed.

Lemma accumulate_final_truthy sid sp tx s :
  truthy tx = true ->
  truthy (currentText (fst (accumulate_final sid sp tx s))) = true
  /\ currentSpeaker (fst (accumulate_final sid sp tx s)) = sp.
Proof.
  intros Ht. unfold accumulate_final.
  destruct (negb (String.eqb sp (currentSpeaker s)) && truthy (currentText s));
    cbn [fst set_turn currentText currentSpeaker]; split; try reflexivity.
  - exact Ht.
  - destruct (truthy (currentText s)) eqn:E; [|exact Ht].
    now apply truthy_append.
Qed.

Lemma close_on_punctuation_consistent sid s :
  turn_consistent s -> turn_consistent (fst (close_on_punctuation sid s)).
Proof.
  unfold close_on_punctuation. now destruct (ends_with_terminal (currentText s)).
Qed.

Lemma partial_preview_state sid sp tx s : fst (partial_preview sid sp tx s) = s.
Proof.
  unfold partial_preview.
  now destruct (String.eqb sp (currentSpeaker s) || negb (truthy (currentSpeaker s))).
Qed.

(** One message keeps text and speaker empty together. *)
Lemma receiveMessage_consistent sid s evt :
  turn_consistent s -> turn_consistent (fst (receiveMessage sid s evt)).
Proof.
  intros H.
  destruct (message evt) eqn:Hm.
  - unfold turn_consistent.
    now destruct (receiveMessage_other sid s evt (or_introl Hm)) as (_ & -> & ->).
  - destruct (contents (results evt)) as [parts|] eqn:Hc;
      [destruct (truthy (trim (join parts))) eqn:Ht|].
    + rewrite (receiveMessage_final _ _ _ _ Hm Hc Ht).
      pose proof (accumulate_final_truthy sid (resolve_speaker (results evt))
                    (normalize_fragments parts) s) as Hacc.
      rewrite truthy_normalize_fragments in Hacc. specialize (Hacc Ht).
      destruct (accumulate_final _ _ _ s) as [s1 out1]. cbn [fst] in Hacc.
      pose proof (close_on_punctuation_consistent sid s1) as Hcl.
      destruct (close_on_punctuation sid s1) as [s2 out2]. cbn [fst] in *.
      apply Hcl. unfold turn_consistent. destruct Hacc as [-> ->].
      now rewrite truthy_resolve_speaker.
    + now rewrite (receiveMessage_no_text _ _ _ _ (or_introl Hm) Hc Ht).
    + now rewrite (receiveMessage_throws _ _ _ (or_introl Hm) Hc).
  - destruct (contents (results evt)) as [parts|] eqn:Hc;
      [destruct (truthy (trim (join parts))) eqn:Ht|].
    + rewrite (receiveMessage_partial _ _ _ _ Hm Hc Ht).
      now rewrite partial_preview_state.
    + now rewrite (receiveMessage_no_text _ _ _ _ (or_intror Hm) Hc Ht).
    + now rewrite (receiveMessage_throws _ _ _ (or_intror Hm) Hc).
  - unfold turn_consistent.
    now destruct (receiveMessage_other sid s evt (or_intror Hm)) as (_ & -> & ->).
Qed.

Lemma receiveAll_consistent sid evts : forall s,
  turn_consistent s -> turn_consistent (fst (receiveAll sid s evts)).
Proof.
  induction evts as [|evt evts IH]; intros s H; [exact H|].
  cbn [receiveAll].
  pose proof (receiveMessage_consistent sid s evt H) as H1.
  destruct (receiveMessage sid s evt) as [s1 out1]. cbn [fst] in H1.
  specialize (IH s1 H1).
  now destruct (receiveAll sid s1 evts) as [s2 out2].
Qed.

(** A run over a concatenation is the run over the first part followed
    by the run over the second. *)
Lemma receiveAll_app sid evts later : forall s,
  receiveAll sid s (evts ++ later)%list =
  (fst (receiveAll sid (fst (receiveAll sid s evts)) later),
   (snd (receiveAll sid s evts)
    ++ snd (receiveAll sid (fst (receiveAll sid s evts)) later))%list).
Proof.
  induction evts as [|evt evts IH]; intros s.
  - cbn. now destruct (receiveAll sid s later).
  - cbn [app receiveAll]. destruct (receiveMessage sid s evt) as [s1 out1].
    rewrite IH. destruct (receiveAll sid s1 evts) as [s2 out2]. cbn [fst snd].
    destruct (receiveAll sid s2 later) as [s3 out3]. cbn [fst snd].
    now rewrite app_assoc.
Qed.

(** C6.  After every sequence of messages processed by a session's
    listener, the session holds at most one open turn, its text being
    non-empty exactly when its speaker is; and what has been sent stays
    as it is: the transcriptions sent over a longer run begin with those
    sent so far. *)
Theorem one_open_turn (sid : string) (c : nat)
    (evts : list RealtimeServerMessage) :
  let s := fst (receiveAll sid (listening c) evts) in
  let sent := snd (receiveAll sid (listening c) evts) in
  (currentText s <> EmptyString <-> currentSpeaker s <> EmptyString)
  /\ forall later,
      exists more,
        snd (receiveAll sid (listening c) (evts ++ later)%list)
        = (sent ++ more)%list.
Proof.
  intros s sent. split.
  - rewrite <- !truthy_true.
    assert (turn_consistent s) as ->; [|reflexivity].
    now apply receiveAll_consistent.
  - intros later. rewrite receiveAll_app. cbn [snd]. eauto.
Qed.

(** * The session registry *)

Lemma cleanupClient_unknown sid w :
  clients w !! sid = None -> cleanupClient sid w = (Val tt, w, []).
Proof.
  intros H. cbv [cleanupClient bind lookup_session]. now rewrite H.
Qed.

Lemma cleanupClient_released sid w s :
  clients w !! sid = Some s -> client s = None ->
  cleanupClient sid w = (Val tt, w, []).
Proof.
  intros H Hc. cbv [cleanupClient bind lookup_session]. now rewrite H, Hc.
Qed.

Lemma cleanupClient_live sid w s c :
  clients w !! sid = Some s -> client s = Some c ->
  cleanupClient sid w =
  (Val tt,
   {| clients := <[sid := new_session]> (clients w);
      next_client := next_client w |},
   [StopRecognition c]).
Proof.
  intros H Hc.
  cbv [cleanupClient bind lookup_session tell update_session with_clients].
  rewrite H, Hc. cbn [app clients next_client]. do 2 f_equal. f_equal.
  apply map_eq. intros k. rewrite lookup_alter, lookup_insert.
  destruct (decide (sid = k)) as [<-|]; [now rewrite H|reflexivity].
Qed.

(** C8.  [cleanupClient] is idempotent: called twice in a row, for any
    session id, registered or not, it ends without an error, leaves the
    connection as one call does, and the second call does nothing at
    all, in particular no second [stopRecognition]. *)
Theorem cleanupClient_idempotent (sid : string) (w : connection) :
  fst (fst (cleanupClient sid w)) = Val tt
  /\ (cleanupClient sid ;;; cleanupClient sid) w = cleanupClient sid w
  /\ cleanupClient sid (connection_of (cleanupClient sid w))
     = (Val tt, connection_of (cleanupClient sid w), []).
Proof.
  destruct (clients w !! sid) as [s|] eqn:E; [destruct (client s) as [c|] eqn:Ec|].
  - assert (cleanupClient sid
              {| clients := <[sid := new_session]> (clients w);
                 next_client := next_client w |}
            = (Val tt,
               {| clients := <[sid := new_session]> (clients w);
                  next_client := next_client w |}, [])) as H2.
    { apply (cleanupClient_released _ _ new_session); [|reflexivity].
      cbn [clients]. apply lookup_insert_eq. }
    unfold bind, connection_of. rewrite (cleanupClient_live _ _ _ _ E Ec).
    cbn [fst snd]. rewrite H2. now rewrite app_nil_r.
  - unfold bind, connection_of. rewrite (cleanupClient_released _ _ _ E Ec).
    cbn [fst snd]. now rewrite (cleanupClient_released _ _ _ E Ec).
  - unfold bind, connection_of. rewrite (cleanupClient_unknown _ _ E).
    cbn [fst snd]. now rewrite (cleanupClient_unknown _ _ E).
Qed.

(** C4 as stated fails.  Session "a" is connected, receives the final
    events (S1, "well,") and (S1, ", yes") and so holds the open turn
    (S1, "well,, yes").  On [stopRecording] the segment sent carries the
    text formatted once more, not the trimmed text, and the session's
    entry is still in the map. *)
Lemma stopRecording_counterexample :
  let w :=
    connection_of
      ((audioData (all_resolve "key") (chunk "a") ;;;
        deliver "a" (transcript AddTranscript "S1" "well,") ;;;
        deliver "a" (transcript AddTranscript "S1" ", yes"))
         fresh_connection) in
  (currentText <$> clients w !! "a") = Some "well,, yes"
  /\ ~ (transcriptions_of "a" (effects_of (stopRecording (Some "a") w))
        = [({| seg_speaker := "S1"; seg_text := trim "well,, yes" |}, false)]
        /\ clients (connection_of (stopRecording (Some "a") w)) !! "a" = None)
  /\ transcriptions_of "a" (effects_of (stopRecording (Some "a") w))
     = [({| seg_speaker := "S1"; seg_text := "well, , yes" |}, false)]
  /\ clients (connection_of (stopRecording (Some "a") w)) !! "a"
     = Some new_session.
Proof.
  vm_compute. repeat split. intros [H _]. discriminate H.
Qed.

(** C4, amended.  When a session with a client holds an open turn with
    non-empty text, [stopRecording] sends exactly one final segment, with
    the turn's speaker and the turn's trimmed text passed once more
    through the punctuation formatting (which is the trimmed text itself
    when the turn's text is a normalised text), then stops the client;
    afterwards the session's entry is still in the map, reset to the
    values of a new session. *)
Theorem stopRecording_flushes_and_resets
    (data_sessionId : option string) (w : connection) (s : session) (c : nat) :
  clients w !! or_default data_sessionId = Some s ->
  client s = Some c ->
  currentText s <> EmptyString ->
  let sid := or_default data_sessionId in
  stopRecording data_sessionId w
  = (Val tt,
     {| clients := <[sid := new_session]> (clients w);
        next_client := next_client w |},
     [final_segment (currentSpeaker s) (formatText (trim (currentText s))) sid;
      StopRecognition c])
  /\ clients (connection_of (stopRecording data_sessionId w)) !! sid
     = Some new_session
  /\ forall x, currentText s = normalize x ->
               formatText (trim (currentText s)) = trim (currentText s).
Proof.
  intros Hs Hc Ht sid. apply truthy_true in Ht.
  assert (stopRecording data_sessionId w
          = (Val tt,
             {| clients := <[sid := new_session]> (clients w);
                next_client := next_client w |},
             [final_segment (currentSpeaker s)
                (formatText (trim (currentText s))) sid;
              StopRecognition c])) as H.
  { unfold stopRecording. fold sid. unfold bind at 1.
    unfold lookup_session at 1. fold sid in Hs. rewrite Hs.
    unfold has_client. rewrite Hc, Ht. unfold bind, tell.
    now rewrite (cleanupClient_live _ _ _ _ Hs Hc). }
  repeat split.
  - exact H.
  - rewrite H. unfold connection_of. cbn [fst snd clients].
    apply lookup_insert_eq.
  - intros x ->. unfold normalize. rewrite formatText_trim_fixed.
    symmetry. apply trim_id. apply trimmed_formatText.
Qed.

Lemma stopRecording_flushes_and_resets_witness :
  stopRecording (Some "a")
    {| clients := {[ "a" := set_turn "S1" "I feel fine" (listening 0) ]};
       next_client := 1 |}
  = (Val tt,
     {| clients := {[ "a" := new_session ]}; next_client := 1 |},
     [final_segment "S1" "I feel fine" "a"; StopRecognition 0]).
Proof.
  refine (eq_trans
            (proj1 (stopRecording_flushes_and_resets (Some "a")
                      {| clients :=
                           {[ "a" := set_turn "S1" "I feel fine" (listening 0) ]};
                         next_client := 1 |}
                      (set_turn "S1" "I feel fine" (listening 0)) 0 _ _ _)) _);
    try reflexivity; vm_compute; discriminate.
Defined.

(** * Fatal errors of the [audioData] handler *)

Lemma getSession_unknown sid w :
  clients w !! sid = None ->
  getSession sid w =
  (Val new_session,
   {| clients := <[sid := new_session]> (clients w);
      next_client := next_client w |}, []).
Proof.
  intros H. cbv [getSession bind lookup_session with_clients ret].
  now rewrite H.
Qed.

Lemma getSession_known sid w s :
  clients w !! sid = Some s -> getSession sid w = (Val s, w, []).
Proof.
  intros H. cbv [getSession bind lookup_session with_clients ret].
  now rewrite H.
Qed.

(** C3 fails on the code for a missing key.  The first chunk of an
    unseen session id, processed while [SPEECHMATICS_API_KEY] is not
    set, stops no client, leaves the session registered with
    [isConnecting] still set, and reports the error.  Every later chunk
    for that id, whatever the environment answers by then, creates no
    client and requests no token: it runs into the connection timeout,
    leaves the connection as it was, and reports the error again. *)
Theorem missing_key_blocks_retry
    (env1 env2 : environment) (data : audioData_payload) (w : connection) :
  let sid := or_default (sessionId data) in
  clients w !! sid = None ->
  truthy_opt (SPEECHMATICS_API_KEY env1) = None ->
  let w1 :=
    {| clients := <[sid := stuck]> (clients w);
       next_client := next_client w |} in
  audioData env1 data w
  = (Val tt, w1, [EmitError "Error processing audio" sid])
  /\ audioData env2 data w1
     = (Val tt, w1, [EmitError "Error processing audio" sid]).
Proof.
  intros sid Hnew Hkey w1.
  assert (clients w1 !! sid = Some stuck) as Hstuck
      by (cbn [w1 clients]; apply lookup_insert_eq).
  assert (cleanupClient sid w1 = (Val tt, w1, [])) as Hclean
      by (now apply (cleanupClient_released _ _ stuck)).
  split.
  - unfold audioData, try_catch. fold sid.
    unfold bind at 1. rewrite (getSession_unknown _ _ Hnew).
    unfold connect. cbn [has_client new_session client isConnecting negb andb].
    rewrite Hkey.
    cbv [bind update_session with_clients throw]. cbn [clients next_client].
    rewrite alter_insert_eq. cbn [new_session isConnected].
    fold stuck. fold w1. rewrite Hclean. reflexivity.
  - unfold audioData, try_catch. fold sid.
    unfold bind at 1. rewrite (getSession_known _ _ _ Hstuck).
    unfold connect. cbn [has_client stuck set_connection_flags new_session
                         client isConnecting negb andb].
    cbv [bind ret wait_for_connection lookup_session]. rewrite Hstuck.
    cbn [has_client stuck set_connection_flags new_session client isConnected
         andb throw].
    rewrite Hclean. reflexivity.
Qed.

Lemma missing_key_blocks_retry_witness :
  audioData key_missing (chunk "a") fresh_connection
  = (Val tt, {| clients := {[ "a" := stuck ]}; next_client := 0 |},
     [EmitError "Error processing audio" "a"])
  /\ audioData (all_resolve "key") (chunk "a")
       {| clients := {[ "a" := stuck ]}; next_client := 0 |}
     = (Val tt, {| clients := {[ "a" := stuck ]}; next_client := 0 |},
        [EmitError "Error processing audio" "a"]).
Proof.
  exact (missing_key_blocks_retry key_missing (all_resolve "key") (chunk "a")
           fresh_connection eq_refl eq_refl).
Defined.

(** The sibling path: when [client.start] rejects, the client is stopped
    and the session reset before the error is reported, and the next
    chunk for the same id connects anew. *)
Lemma start_rejected_resets_then_retries :
  let env := {| SPEECHMATICS_API_KEY := Some "key"; jwt_resolves := true;
                start_resolves := false; started_in_time := true;
                sendAudio_resolves := true |} in
  let r1 := audioData env (chunk "a") fresh_connection in
  effects_of r1
  = [NewClient 0; CreateJWT "key"; Start 0 None; StopRecognition 0;
     EmitError "Connection error with speech service" "a"]
  /\ clients (connection_of r1) !! "a" = Some new_session
  /\ effects_of (audioData (all_resolve "key") (chunk "a") (connection_of r1))
     = [NewClient 1; CreateJWT "key"; Start 1 None; SendAudio 1 "AAAA"].
Proof. vm_compute. repeat split. Qed.

(** Likewise for the connection timeout and for a rejected [sendAudio]. *)
Lemma timeout_and_send_failure_reset :
  let late := {| SPEECHMATICS_API_KEY := Some "key"; jwt_resolves := true;
                 start_resolves := true; started_in_time := false;
                 sendAudio_resolves := true |} in
  let lost := {| SPEECHMATICS_API_KEY := Some "key"; jwt_resolves := true;
                 start_resolves := true; started_in_time := true;
                 sendAudio_resolves := false |} in
  let r1 := audioData late (chunk "a") fresh_connection in
  let r2 := audioData lost (chunk "a") fresh_connection in
  effects_of r1
  = [NewClient 0; CreateJWT "key"; Start 0 None; StopRecognition 0;
     EmitError "Error processing audio" "a"]
  /\ clients (connection_of r1) !! "a" = Some new_session
  /\ effects_of r2
     = [NewClient 0; CreateJWT "key"; Start 0 None; SendAudio 0 "AAAA";
        StopRecognition 0; EmitError "Error processing audio" "a"]
  /\ clients (connection_of r2) !! "a" = Some new_session.
Proof. vm_compute. repeat split. Qed.

(** * The multi-session listener against the single-session listener *)

Lemma same_turn_set_turn sp tx st s :
  same_turn (Single.set_turn sp tx st) (set_turn sp tx s).
Proof. split; reflexivity. Qed.


(** One message: the two listeners move the turn alike and send the
    same transcriptions, up to the session id. *)
Lemma receiveMessage_refines sid st s evt :
  same_turn st s ->
  same_turn (fst (Single.receiveMessage st evt)) (fst (receiveMessage sid s evt))
  /\ snd (receiveMessage sid s evt)
     = map (tagged sid) (snd (Single.receiveMessage st evt)).
Proof.
  intros [Hsp Htx].
  unfold Single.receiveMessage, receiveMessage, partial_preview,
    accumulate_final, close_on_punctuation.
  rewrite Hsp, Htx.
  destruct (message evt), (isConnected s); cbn [fst snd map];
    try (split; [split; assumption | reflexivity]);
    (destruct (contents (results evt)) as [parts|];
     [|split; [split; assumption | reflexivity]]);
    cbv zeta;
    (destruct (truthy (trim (join parts)));
     cbn [negb]; [|split; [split; assumption | reflexivity]]);
    repeat match goal with
      | |- context [if ?b then _ else _] =>
          destruct b;
          cbv beta iota zeta;
          cbn [fst snd map app currentText currentSpeaker set_turn]
      end;
    (split; [first [split; assumption | apply same_turn_set_turn]
            | reflexivity]).
Qed.

(** C10.  Fed the same messages from states with the same turn, the
    listener of the multi-session server and the listener of the
    single-session server end with the same turn, and the multi-session
    listener sends exactly the single-session transcriptions (speaker,
    text, partial flag), each with the session id added. *)
Theorem multi_refines_single
    (sid : string) (evts : list RealtimeServerMessage)
    (st : Single.state) (s : session) :
  same_turn st s ->
  same_turn (fst (Single.receiveAll st evts)) (fst (receiveAll sid s evts))
  /\ snd (receiveAll sid s evts)
     = map (tagged sid) (snd (Single.receiveAll st evts)).
Proof.
  revert st s. induction evts as [|evt evts IH]; intros st s H.
  - split; [exact H | reflexivity].
  - cbn [Single.receiveAll receiveAll].
    destruct (receiveMessage_refines sid st s evt H) as [H1 Ho1].
    destruct (Single.receiveMessage st evt) as [st1 o1].
    destruct (receiveMessage sid s evt) as [s1 out1]. cbn [fst snd] in H1, Ho1.
    destruct (IH st1 s1 H1) as [H2 Ho2].
    destruct (Single.receiveAll st1 evts) as [st2 o2].
    destruct (receiveAll sid s1 evts) as [s2 out2]. cbn [fst snd] in *.
    split; [exact H2|]. now rewrite map_app, Ho1, Ho2.
Qed.

Lemma multi_refines_single_witness :
  let evts := [transcript AddPartialTranscript "S1" "Hel";
               transcript AddTranscript "S1" "Hello";
               transcript AddTranscript "S2" "there."] in
  same_turn (fst (Single.receiveAll Single.initial evts))
            (fst (receiveAll "a" (listening 0) evts))
  /\ snd (receiveAll "a" (listening 0) evts)
     = map (tagged "a") (snd (Single.receiveAll Single.initial evts)).
Proof.
  apply (multi_refines_single "a" _ Single.initial (listening 0)).
  split; reflexivity.
Defined.

(** * Isolation of sessions *)




Lemma deliver_unknown sid evt w :
  clients w !! sid = None -> deliver sid evt w = (Val tt, w, []).
Proof. intros H. unfold deliver, bind, lookup_session. now rewrite H. Qed.

Lemma transcriptions_of_app a o1 o2 :
  transcriptions_of a (o1 ++ o2)%list
  = (transcriptions_of a o1 ++ transcriptions_of a o2)%list.
Proof.
  induction o1 as [|e o1 IH]; [reflexivity|].
  cbn [app transcriptions_of]. rewrite IH.
  destruct e as [seg p sid'| | | | | |]; try reflexivity.
  now destruct (String.eqb sid' a).
Qed.





(** * Further properties of the formatting chain *)

Import Observe.

Lemma append_cons c a b : String c a +:+ b = String c (a +:+ b).
Proof. reflexivity. Qed.

Lemma append_nil_l b : EmptyString +:+ b = b.
Proof. reflexivity. Qed.

Lemma append_nil_r s : s +:+ EmptyString = s.
Proof.
  induction s as [|c s IH]; [reflexivity|]. now rewrite append_cons, IH.
Qed.

Lemma append_assoc a b c : (a +:+ b) +:+ c = a +:+ (b +:+ c).
Proof.
  induction a as [|x a IH]; [reflexivity|]. now rewrite !append_cons, IH.
Qed.

Lemma remove_ws_app a b : remove_ws (a +:+ b) = remove_ws a +:+ remove_ws b.
Proof.
  induction a as [|c a IH]; [reflexivity|].
  rewrite append_cons. cbn [remove_ws].
  destruct (is_ws c); [exact IH|]. now rewrite append_cons, IH.
Qed.

Lemma remove_ws_drop_ws s : remove_ws (drop_ws s) = remove_ws s.
Proof.
  induction s as [|c s IH]; [reflexivity|]. cbn.
  destruct (is_ws c) eqn:E; [exact IH|]. cbn. now rewrite E.
Qed.

Lemma remove_ws_trim_end s : remove_ws (trim_end s) = remove_ws s.
Proof.
  induction s as [|c s IH]; [reflexivity|]. cbn [trim_end remove_ws].
  rewrite <- IH. destruct (trim_end s) as [|d r].
  - destruct (is_ws c) eqn:E; [reflexivity|]. cbn. now rewrite E.
  - reflexivity.
Qed.

Lemma remove_ws_trim s : remove_ws (trim s) = remove_ws s.
Proof. unfold trim. now rewrite remove_ws_trim_end, remove_ws_drop_ws. Qed.

Lemma remove_ws_strip_punct_ws s : remove_ws (strip_punct_ws s) = remove_ws s.
Proof.
  induction s as [| c s p rest E IH | c s E IH] using strip_punct_ws_ind.
  - reflexivity.
  - rewrite strip_punct_ws_cons, E.
    rewrite <- (remove_ws_drop_ws (String c s)).
    unfold match_punct_ws in E.
    destruct (drop_ws (String c s)) as [|q r]; [discriminate|].
    destruct (is_punct q) eqn:Hq; [|discriminate]. injection E as <- <-.
    cbn [remove_ws]. rewrite (punct_not_ws _ Hq), IH.
    now rewrite remove_ws_drop_ws.
  - rewrite strip_punct_ws_cons, E. cbn [remove_ws]. now rewrite IH.
Qed.

Lemma remove_ws_space_after_punct s :
  remove_ws (space_after_punct s) = remove_ws s.
Proof.
  induction s as [|c s IH]; [reflexivity|]. cbn [space_after_punct].
  destruct (is_punct c && lookahead_any s); cbn [remove_ws];
    replace (is_ws " ") with true by reflexivity; now rewrite IH.
Qed.

Lemma formatText_keeps_characters_aux t : remove_ws (formatText t) = remove_ws t.
Proof.
  unfold formatText.
  now rewrite remove_ws_trim, remove_ws_space_after_punct,
    remove_ws_strip_punct_ws.
Qed.

(** X1.  The formatting chain changes white space only: with the white
    space taken out, the formatted text is the text that went in. *)
Theorem formatText_keeps_characters (s : string) :
  remove_ws (formatText s) = remove_ws s
  /\ remove_ws (normalize s) = remove_ws s.
Proof.
  split; [apply formatText_keeps_characters_aux|]. unfold normalize.
  now rewrite formatText_keeps_characters_aux, remove_ws_trim.
Qed.

Lemma spaced_space_after_punct s :
  tight s = true -> spaced (space_after_punct s) = true.
Proof.
  induction s as [|c s IH]; [reflexivity|].
  cbn [tight space_after_punct]. intros Ht.
  apply andb_prop in Ht as [Ht Hs]. apply andb_prop in Ht as [_ Ht].
  specialize (IH Hs).
  destruct (is_punct c) eqn:Hp; cbn [andb] in *.
  - apply negb_true_iff in Ht. rewrite (lookahead_any_tight _ Ht).
    destruct (truthy s) eqn:Hn.
    + cbn [spaced]. rewrite Hp.
      replace (is_punct " ") with false by reflexivity.
      rewrite truthy_space_after_punct, Hn, ws_head_space_after_punct, Ht, IH.
      reflexivity.
    + apply truthy_false in Hn. subst s. cbn. now rewrite Hp.
  - cbn [spaced]. now rewrite Hp, IH.
Qed.

(** X2.  In a normalised text every punctuation mark [. , ? !] is the
    last character or is followed by exactly one space and then by a
    character that is not white space; the text has no white space at
    either end; and it is empty only when the text that went in was
    blank. *)
Theorem normalize_shape (s : string) :
  spaced (normalize s) = true
  /\ trimmed (normalize s)
  /\ truthy (normalize s) = truthy (trim s).
Proof.
  unfold normalize. repeat split.
  - rewrite (formatText_trimmed _ (trimmed_trim s)).
    apply spaced_space_after_punct, tight_strip_punct_ws.
  - apply trimmed_formatText.
  - apply trimmed_formatText.
  - apply truthy_formatText, trimmed_trim.
Qed.

(** * Further properties of the listener *)

Lemma truthy_trim s : truthy (trim s) = truthy (remove_ws s).
Proof.
  rewrite <- (remove_ws_trim s).
  destruct (trimmed_trim s) as [H _].
  destruct (trim s) as [|c t]; [reflexivity|]. cbn in *. now rewrite H.
Qed.

Lemma ends_with_terminal_cons c s :
  truthy s = true -> ends_with_terminal (String c s) = ends_with_terminal s.
Proof. now destruct s. Qed.

Lemma ends_with_terminal_app a b :
  truthy b = true -> ends_with_terminal (a +:+ b) = ends_with_terminal b.
Proof.
  intros H. induction a as [|c a IH]; [reflexivity|].
  rewrite append_cons, ends_with_terminal_cons; [exact IH|].
  destruct a; [exact H|reflexivity].
Qed.

Lemma truthy_app_r a b : truthy b = true -> truthy (a +:+ b) = true.
Proof. intros H. destruct a; [exact H|reflexivity]. Qed.

Lemma ws_head_app a b : truthy a = true -> ws_head (a +:+ b) = ws_head a.
Proof. now destruct a. Qed.

Lemma last_ws_app a b : truthy b = true -> last_ws (a +:+ b) = last_ws b.
Proof.
  intros H. induction a as [|c a IH]; [reflexivity|].
  rewrite append_cons, last_ws_cons, IH. now rewrite truthy_app_r.
Qed.

Lemma trimmed_nil : trimmed EmptyString.
Proof. split; reflexivity. Qed.

(** Joining two trimmed, non-empty texts, with or without a space in
    between, gives a trimmed text. *)
Lemma trimmed_joined a sep b :
  trimmed a -> trimmed b -> truthy a = true -> truthy b = true ->
  trimmed (a +:+ sep +:+ b).
Proof.
  intros [Ha _] [_ Hb] Hta Htb. split.
  - now rewrite ws_head_app.
  - rewrite !last_ws_app; [exact Hb | exact Htb | now apply truthy_app_r].
Qed.

Lemma trimmed_normalize_fragments parts : trimmed (normalize_fragments parts).
Proof. apply trimmed_formatText. Qed.

Lemma tidy_listening c : tidy (listening c).
Proof. repeat split. Qed.

(** The text that the [AddTranscript] branch stores before the closing
    rule. *)
Lemma accumulate_final_text sid sp fmt s :
  trimmed (currentText s) -> trimmed fmt -> truthy fmt = true ->
  let s1 := fst (accumulate_final sid sp fmt s) in
  trimmed (currentText s1) /\ truthy (currentText s1) = true
  /\ currentSpeaker s1 = sp.
Proof.
  intros Hc Hf Ht. cbv zeta. unfold accumulate_final.
  destruct (negb (String.eqb sp (currentSpeaker s)) && truthy (currentText s));
    cbn [fst set_turn currentText currentSpeaker];
    [split; [exact Hf | split; [exact Ht | reflexivity]]|].
  destruct (truthy (currentText s)) eqn:E;
    [|split; [exact Hf | split; [exact Ht | reflexivity]]].
  split; [|split; [|reflexivity]].
  - now apply trimmed_joined.
  - now apply truthy_append.
Qed.

Lemma close_on_punctuation_tidy sid s :
  trimmed (currentText s) -> truthy (currentText s) = true ->
  truthy (currentSpeaker s) = true ->
  tidy (fst (close_on_punctuation sid s)).
Proof.
  intros H1 H2 H3. unfold close_on_punctuation.
  destruct (ends_with_terminal (currentText s)) eqn:E; cbn [fst].
  - repeat split.
  - split; [exact H1|]. split; [exact E|]. now rewrite H2, H3.
Qed.

(** One message keeps the open turn tidy. *)
Lemma receiveMessage_tidy sid s evt :
  tidy s -> tidy (fst (receiveMessage sid s evt)).
Proof.
  intros H.
  destruct (message evt) eqn:Hm.
  - destruct (receiveMessage_other sid s evt (or_introl Hm)) as (_ & Hs & Ht).
    unfold tidy. now rewrite Hs, Ht.
  - destruct (contents (results evt)) as [parts|] eqn:Hc;
      [destruct (truthy (trim (join parts))) eqn:Ht|].
    + rewrite (receiveMessage_final _ _ _ _ Hm Hc Ht).
      destruct H as (Htr & _ & _).
      pose proof (accumulate_final_text sid (resolve_speaker (results evt))
                    (normalize_fragments parts) s Htr
                    (trimmed_normalize_fragments parts)) as Hacc.
      rewrite truthy_normalize_fragments in Hacc. specialize (Hacc Ht).
      destruct (accumulate_final _ _ _ s) as [s1 out1]. cbn [fst] in Hacc.
      destruct Hacc as (Ha & Hb & Hsp).
      pose proof (close_on_punctuation_tidy sid s1 Ha Hb) as Hcl.
      rewrite Hsp, truthy_resolve_speaker in Hcl. specialize (Hcl eq_refl).
      now destruct (close_on_punctuation sid s1) as [s2 out2].
    + now rewrite (receiveMessage_no_text _ _ _ _ (or_introl Hm) Hc Ht).
    + now rewrite (receiveMessage_throws _ _ _ (or_introl Hm) Hc).
  - destruct (contents (results evt)) as [parts|] eqn:Hc;
      [destruct (truthy (trim (join parts))) eqn:Ht|].
    + rewrite (receiveMessage_partial _ _ _ _ Hm Hc Ht).
      now rewrite partial_preview_state.
    + now rewrite (receiveMessage_no_text _ _ _ _ (or_intror Hm) Hc Ht).
    + now rewrite (receiveMessage_throws _ _ _ (or_intror Hm) Hc).
  - destruct (receiveMessage_other sid s evt (or_intror Hm)) as (_ & Hs & Ht).
    unfold tidy. now rewrite Hs, Ht.
Qed.

Lemma receiveAll_tidy sid evts : forall s,
  tidy s -> tidy (fst (receiveAll sid s evts)).
Proof.
  induction evts as [|evt evts IH]; intros s H; [exact H|].
  cbn [receiveAll].
  pose proof (receiveMessage_tidy sid s evt H) as H1.
  destruct (receiveMessage sid s evt) as [s1 out1]. cbn [fst] in H1.
  specialize (IH s1 H1).
  now destruct (receiveAll sid s1 evts) as [s2 out2].
Qed.

(** X3.  Whatever messages a freshly attached listener has processed,
    the text of the open turn has no white space at either end (so the
    [trim] applied when it is sent changes nothing) and does not end
    with a terminal mark [. ! ?]: a turn that reaches one is closed in
    the same step. *)
Theorem open_turn_tidy (sid : string) (c : nat)
    (evts : list RealtimeServerMessage) :
  let s := fst (receiveAll sid (listening c) evts) in
  trimmed (currentText s)
  /\ trim (currentText s) = currentText s
  /\ ends_with_terminal (currentText s) = false.
Proof.
  intros s.
  destruct (receiveAll_tidy sid evts (listening c) (tidy_listening c))
    as (H1 & H2 & _).
  split; [exact H1|]. split; [now apply trim_id | exact H2].
Qed.

Lemma truthy_trim_joined a sep b :
  trimmed b -> truthy b = true -> truthy (trim (a +:+ sep +:+ b)) = true.
Proof.
  intros Hb Ht. rewrite truthy_trim, !remove_ws_app.
  apply truthy_app_r, truthy_app_r.
  now rewrite <- truthy_trim, (trim_id _ Hb).
Qed.

(** What one message makes the listener send is well formed. *)
Lemma receiveMessage_well_formed sid s evt :
  tidy s -> Forall (well_formed sid) (snd (receiveMessage sid s evt)).
Proof.
  intros (Htr & _ & Hcs).
  destruct (message evt) eqn:Hm.
  - destruct (receiveMessage_other sid s evt (or_introl Hm)) as (-> & _).
    constructor.
  - destruct (contents (results evt)) as [parts|] eqn:Hc;
      [destruct (truthy (trim (join parts))) eqn:Ht|].
    + rewrite (receiveMessage_final _ _ _ _ Hm Hc Ht).
      pose proof (accumulate_final_text sid (resolve_speaker (results evt))
                    (normalize_fragments parts) s Htr
                    (trimmed_normalize_fragments parts)) as Hacc.
      rewrite truthy_normalize_fragments in Hacc. specialize (Hacc Ht).
      assert (Forall (well_formed sid)
                (snd (accumulate_final sid (resolve_speaker (results evt))
                        (normalize_fragments parts) s))) as Hout1.
      { unfold accumulate_final.
        destruct (negb _ && truthy (currentText s)) eqn:E; [|constructor].
        apply andb_prop in E as [_ E]. repeat constructor; cbn.
        - now rewrite <- Hcs.
        - now rewrite (trim_id _ Htr).
        - apply trimmed_trim.
        - apply trimmed_trim. }
      destruct (accumulate_final _ _ _ s) as [s1 out1]. cbn [fst snd] in *.
      destruct Hacc as (Ha & Hb & Hsp).
      unfold close_on_punctuation.
      destruct (ends_with_terminal (currentText s1)); cbn [snd].
      * apply Forall_app. split; [exact Hout1|].
        repeat constructor; cbn.
        -- rewrite Hsp. apply truthy_resolve_speaker.
        -- now rewrite (trim_id _ Ha).
        -- apply trimmed_trim.
        -- apply trimmed_trim.
      * now rewrite app_nil_r.
    + rewrite (receiveMessage_no_text _ _ _ _ (or_introl Hm) Hc Ht). constructor.
    + rewrite (receiveMessage_throws _ _ _ (or_introl Hm) Hc). constructor.
  - destruct (contents (results evt)) as [parts|] eqn:Hc;
      [destruct (truthy (trim (join parts))) eqn:Ht|].
    + rewrite (receiveMessage_partial _ _ _ _ Hm Hc Ht). unfold partial_preview.
      destruct (String.eqb _ _ || negb _); [|constructor].
      repeat constructor; cbn.
      * apply truthy_resolve_speaker.
      * apply truthy_trim_joined; [apply trimmed_normalize_fragments|].
        now rewrite truthy_normalize_fragments.
      * apply trimmed_trim.
      * apply trimmed_trim.
    + rewrite (receiveMessage_no_text _ _ _ _ (or_intror Hm) Hc Ht). constructor.
    + rewrite (receiveMessage_throws _ _ _ (or_intror Hm) Hc). constructor.
  - destruct (receiveMessage_other sid s evt (or_intror Hm)) as (-> & _).
    constructor.
Qed.

Lemma receiveAll_well_formed sid evts : forall s,
  tidy s -> Forall (well_formed sid) (snd (receiveAll sid s evts)).
Proof.
  induction evts as [|evt evts IH]; intros s H; [constructor|].
  cbn [receiveAll].
  pose proof (receiveMessage_tidy sid s evt H) as H1.
  pose proof (receiveMessage_well_formed sid s evt H) as H2.
  destruct (receiveMessage sid s evt) as [s1 out1]. cbn [fst snd] in *.
  specialize (IH s1 H1).
  destruct (receiveAll sid s1 evts) as [s2 out2]. cbn [snd] in *.
  apply Forall_app. now split.
Qed.

(** X4.  Everything a freshly attached listener sends is a
    transcription for its own session, partial or final, with a speaker
    label that is not empty and a text that is not empty and has no
    white space at either end. *)
Theorem transcriptions_well_formed (sid : string) (c : nat)
    (evts : list RealtimeServerMessage) :
  Forall (well_formed sid) (snd (receiveAll sid (listening c) evts)).
Proof. apply receiveAll_well_formed, tidy_listening. Qed.

Lemma final_texts_app o1 o2 :
  final_texts (o1 ++ o2)%list = final_texts o1 +:+ final_texts o2.
Proof.
  induction o1 as [|e o1 IH]; [reflexivity|]. cbn [app final_texts].
  destruct e as [seg [|] sid'| | | | | |]; try exact IH.
  now rewrite IH, append_assoc.
Qed.

Lemma remove_ws_normalize_fragments parts :
  remove_ws (normalize_fragments parts) = remove_ws (join parts).
Proof.
  unfold normalize_fragments, normalize, formatText.
  now rewrite remove_ws_trim, remove_ws_space_after_punct,
    remove_ws_strip_punct_ws, remove_ws_trim.
Qed.

Lemma remove_ws_blank s : truthy (trim s) = false -> remove_ws s = EmptyString.
Proof. rewrite truthy_trim. apply truthy_false. Qed.

Lemma remove_ws_separator (b : bool) :
  remove_ws (if b then EmptyString else " ") = EmptyString.
Proof. now destruct b. Qed.

(** One message: the final texts sent and the text still open are,
    white space apart, the text that was open and the text that came. *)
Lemma receiveMessage_conserves sid s evt :
  remove_ws (final_texts (snd (receiveMessage sid s evt))
             +:+ currentText (fst (receiveMessage sid s evt)))
  = remove_ws (currentText s +:+ spoken_text evt).
Proof.
  unfold spoken_text.
  destruct (message evt) eqn:Hm.
  - destruct (receiveMessage_other sid s evt (or_introl Hm)) as (-> & _ & ->).
    now rewrite append_nil_l, append_nil_r.
  - destruct (contents (results evt)) as [parts|] eqn:Hc;
      [destruct (truthy (trim (join parts))) eqn:Ht|].
    + rewrite (receiveMessage_final _ _ _ _ Hm Hc Ht).
      unfold accumulate_final, close_on_punctuation.
      destruct (negb _ && truthy (currentText s));
        cbn [currentText set_turn currentSpeaker];
        match goal with
        | |- context [ends_with_terminal ?t] => destruct (ends_with_terminal t)
        end;
        cbn [fst snd app final_texts final_segment currentText set_turn seg_text];
        rewrite ?append_nil_r, ?append_nil_l, ?remove_ws_app, ?remove_ws_trim,
          ?remove_ws_app, ?remove_ws_normalize_fragments; try reflexivity;
        destruct (truthy (currentText s)) eqn:E;
        rewrite ?remove_ws_app, ?remove_ws_separator,
          ?remove_ws_normalize_fragments, ?append_nil_l; try reflexivity;
        apply truthy_false in E; now rewrite E.
    + rewrite (receiveMessage_no_text _ _ _ _ (or_introl Hm) Hc Ht).
      cbn [fst snd final_texts].
      now rewrite append_nil_l, remove_ws_app, (remove_ws_blank _ Ht), append_nil_r.
    + rewrite (receiveMessage_throws _ _ _ (or_introl Hm) Hc).
      cbn [fst snd final_texts]. now rewrite append_nil_l, append_nil_r.
  - assert (receiveMessage sid s evt = (s, [])
            \/ exists seg, receiveMessage sid s evt
                           = (s, [EmitTranscription seg true sid])) as H.
    { destruct (contents (results evt)) as [parts|] eqn:Hc;
        [destruct (truthy (trim (join parts))) eqn:Ht|].
      - rewrite (receiveMessage_partial _ _ _ _ Hm Hc Ht). unfold partial_preview.
        destruct (String.eqb _ _ || negb _); eauto.
      - left. apply (receiveMessage_no_text _ _ _ _ (or_intror Hm) Hc Ht).
      - left. apply (receiveMessage_throws _ _ _ (or_intror Hm) Hc). }
    destruct H as [-> | [seg ->]]; cbn [fst snd final_texts];
      now rewrite append_nil_l, append_nil_r.
  - destruct (receiveMessage_other sid s evt (or_intror Hm)) as (-> & _ & ->).
    now rewrite append_nil_l, append_nil_r.
Qed.

Lemma receiveAll_conserves sid evts : forall s,
  remove_ws (final_texts (snd (receiveAll sid s evts))
             +:+ currentText (fst (receiveAll sid s evts)))
  = remove_ws (currentText s +:+ spoken evts).
Proof.
  induction evts as [|evt evts IH]; intros s.
  - cbn. now rewrite append_nil_r.
  - cbn [receiveAll spoken].
    pose proof (receiveMessage_conserves sid s evt) as H1.
    destruct (receiveMessage sid s evt) as [s1 out1]. cbn [fst snd] in H1.
    specialize (IH s1).
    destruct (receiveAll sid s1 evts) as [s2 out2]. cbn [fst snd] in *.
    rewrite final_texts_app, append_assoc, remove_ws_app, IH.
    rewrite <- remove_ws_app, <- append_assoc, remove_ws_app, H1.
    now rewrite <- remove_ws_app, append_assoc.
Qed.


(** A final message of the speaker who holds the turn (or arriving
    while no text is open), whose normalised text does not end with a
    terminal mark, sends nothing and keeps the turn open. *)
Lemma receiveMessage_same_speaker sid sp s evt parts :
  message evt = AddTranscript ->
  resolve_speaker (results evt) = sp ->
  contents (results evt) = Some parts ->
  ends_with_terminal (normalize_fragments parts) = false ->
  (currentSpeaker s = sp \/ currentText s = EmptyString) ->
  ends_with_terminal (currentText s) = false ->
  snd (receiveMessage sid s evt) = []
  /\ (currentSpeaker (fst (receiveMessage sid s evt)) = sp
      \/ currentText (fst (receiveMessage sid s evt)) = EmptyString)
  /\ ends_with_terminal (currentText (fst (receiveMessage sid s evt))) = false.
Proof.
  intros Hm Hsp Hc Hend Hturn Hopen.
  destruct (truthy (trim (join parts))) eqn:Ht.
  - rewrite (receiveMessage_final _ _ _ _ Hm Hc Ht), Hsp.
    unfold accumulate_final.
    assert (negb (String.eqb sp (currentSpeaker s)) && truthy (currentText s)
            = false) as ->.
    { destruct Hturn as [-> | ->]; [now rewrite String.eqb_refl|].
      apply andb_false_r. }
    unfold close_on_punctuation. cbn [currentText set_turn].
    assert (ends_with_terminal
              (if truthy (currentText s)
               then currentText s
                    +:+ (if starts_with_punct (normalize_fragments parts)
                         then EmptyString else " ")
                    +:+ normalize_fragments parts
               else normalize_fragments parts) = false) as ->.
    { destruct (truthy (currentText s)); [|exact Hend].
      rewrite !ends_with_terminal_app; [exact Hend| |apply truthy_app_r];
        now rewrite truthy_normalize_fragments. }
    cbn [fst snd app currentText currentSpeaker set_turn].
    split; [reflexivity|]. split; [now left|].
    destruct (truthy (currentText s)); [|exact Hend].
    rewrite !ends_with_terminal_app; [exact Hend| |apply truthy_app_r];
      now rewrite truthy_normalize_fragments.
  - rewrite (receiveMessage_no_text _ _ _ _ (or_introl Hm) Hc Ht). now cbn.
Qed.

(** X6.  Final messages that all come from one speaker, none of whose
    normalised texts ends with a terminal mark, make a freshly attached
    listener send nothing: they are gathered in one open turn of that
    speaker, whose text is, white space apart, the texts received. *)
Theorem same_speaker_accumulates (sid sp : string) (c : nat)
    (evts : list RealtimeServerMessage) :
  Forall (fun evt =>
            message evt = AddTranscript
            /\ resolve_speaker (results evt) = sp
            /\ exists parts,
                contents (results evt) = Some parts
                /\ ends_with_terminal (normalize_fragments parts) = false)
         evts ->
  let s := fst (receiveAll sid (listening c) evts) in
  snd (receiveAll sid (listening c) evts) = []
  /\ (currentSpeaker s = sp \/ currentText s = EmptyString)
  /\ remove_ws (currentText s) = remove_ws (spoken evts).
Proof.
  intros H s.
  assert (forall s0,
             (currentSpeaker s0 = sp \/ currentText s0 = EmptyString) ->
             ends_with_terminal (currentText s0) = false ->
             snd (receiveAll sid s0 evts) = []
             /\ (currentSpeaker (fst (receiveAll sid s0 evts)) = sp
                 \/ currentText (fst (receiveAll sid s0 evts)) = EmptyString))
    as Hrun.
  { induction H as [|evt evts (Hm & Hsp & parts & Hc & Hend) _ IH];
      intros s0 Hturn Hopen; [now split|].
    cbn [receiveAll].
    destruct (receiveMessage_same_speaker sid sp s0 evt parts
                Hm Hsp Hc Hend Hturn Hopen) as (Ho & Ht & He).
    destruct (receiveMessage sid s0 evt) as [s1 out1]. cbn [fst snd] in *.
    destruct (IH s1 Ht He) as [Ho2 Ht2].
    destruct (receiveAll sid s1 evts) as [s2 out2]. cbn [fst snd] in *.
    subst. now split. }
  destruct (Hrun (listening c) (or_intror eq_refl) eq_refl) as [Hout Hturn].
  split; [exact Hout|]. split; [exact Hturn|].
  pose proof (receiveAll_conserves sid evts (listening c)) as Hc.
  rewrite Hout in Hc. exact Hc.
Qed.

Lemma same_speaker_accumulates_witness :
  let evts := [transcript AddTranscript "S1" "I have";
               transcript AddTranscript "S1" ", since Monday";
               transcript AddTranscript "S1" "a headache"] in
  snd (receiveAll "a" (listening 0) evts) = []
  /\ (currentSpeaker (fst (receiveAll "a" (listening 0) evts)) = "S1"
      \/ currentText (fst (receiveAll "a" (listening 0) evts)) = EmptyString)
  /\ remove_ws (currentText (fst (receiveAll "a" (listening 0) evts)))
     = remove_ws (spoken evts).
Proof.
  apply (same_speaker_accumulates "a" "S1" 0).
  repeat constructor; eexists; split; reflexivity.
Defined.

(** X7.  A partial preview shows what the final will be: when a partial
    message is shown and the same results then arrive as a final
    message, the final message either leaves the turn open, with the
    speaker and the text of the preview, or closes it by sending the
    segment of the preview as a final segment. *)
Theorem preview_agrees_with_final
    (sid : string) (s : session) (p f : RealtimeServerMessage) (seg : segment) :
  turn_consistent s ->
  message p = AddPartialTranscript ->
  message f = AddTranscript ->
  results p = results f ->
  snd (receiveMessage sid s p) = [EmitTranscription seg true sid] ->
  (snd (receiveMessage sid s f) = []
   /\ currentSpeaker (fst (receiveMessage sid s f)) = seg_speaker seg
   /\ trim (currentText (fst (receiveMessage sid s f))) = seg_text seg)
  \/ (snd (receiveMessage sid s f) = [EmitTranscription seg false sid]
      /\ currentSpeaker (fst (receiveMessage sid s f)) = EmptyString
      /\ currentText (fst (receiveMessage sid s f)) = EmptyString).
Proof.
  intros Hcs Hp Hf Hres Hshown.
  destruct (contents (results p)) as [parts|] eqn:Hc;
    [destruct (truthy (trim (join parts))) eqn:Ht|].
  2:{ rewrite (receiveMessage_no_text _ _ _ _ (or_intror Hp) Hc Ht) in Hshown.
      discriminate. }
  2:{ rewrite (receiveMessage_throws _ _ _ (or_intror Hp) Hc) in Hshown.
      discriminate. }
  rewrite (receiveMessage_partial _ _ _ _ Hp Hc Ht) in Hshown.
  rewrite Hres in Hc.
  rewrite (receiveMessage_final _ _ _ _ Hf Hc Ht).
  rewrite Hres in Hshown. unfold partial_preview in Hshown.
  unfold accumulate_final, close_on_punctuation.
  set (sp := resolve_speaker (results f)) in *.
  set (fmt := normalize_fragments parts) in *.
  destruct (String.eqb sp (currentSpeaker s) || negb (truthy (currentSpeaker s)))
    eqn:Hcond; [|discriminate].
  cbn [snd] in Hshown. injection Hshown as <-.
  assert (negb (String.eqb sp (currentSpeaker s)) && truthy (currentText s)
          = false) as ->.
  { apply orb_prop in Hcond as [-> | Hn]; [reflexivity|].
    unfold turn_consistent in Hcs. rewrite Hcs.
    apply negb_true_iff in Hn. rewrite Hn. apply andb_false_r. }
  cbn [currentText currentSpeaker set_turn seg_speaker seg_text].
  assert ((if truthy (currentText s)
           then currentText s
                +:+ (if starts_with_punct fmt then EmptyString else " ")
                +:+ fmt
           else fmt)
          = currentText s
            +:+ (if truthy (currentText s) && negb (starts_with_punct fmt)
                 then " " else EmptyString)
            +:+ fmt) as ->.
  { destruct (truthy (currentText s)) eqn:E.
    - now destruct (starts_with_punct fmt).
    - apply truthy_false in E. now rewrite E. }
  match goal with
  | |- context [ends_with_terminal ?t] => destruct (ends_with_terminal t)
  end; cbn [fst snd app currentText currentSpeaker set_turn];
    [right | left]; repeat split.
Qed.

Lemma preview_agrees_with_final_witness :
  let s := set_turn "S1" "I feel" (listening 0) in
  (snd (receiveMessage "a" s (transcript AddTranscript "S1" "fine")) = []
   /\ currentSpeaker (fst (receiveMessage "a" s (transcript AddTranscript "S1" "fine")))
      = "S1"
   /\ trim (currentText (fst (receiveMessage "a" s (transcript AddTranscript "S1" "fine"))))
      = "I feel fine")
  \/ (snd (receiveMessage "a" s (transcript AddTranscript "S1" "fine"))
      = [EmitTranscription {| seg_speaker := "S1"; seg_text := "I feel fine" |}
           false "a"]
      /\ currentSpeaker (fst (receiveMessage "a" s (transcript AddTranscript "S1" "fine")))
         = EmptyString
      /\ currentText (fst (receiveMessage "a" s (transcript AddTranscript "S1" "fine")))
         = EmptyString).
Proof.
  apply (preview_agrees_with_final "a" (set_turn "S1" "I feel" (listening 0))
           (transcript AddPartialTranscript "S1" "fine")
           (transcript AddTranscript "S1" "fine")
           {| seg_speaker := "S1"; seg_text := "I feel fine" |});
    reflexivity.
Defined.

(** * Further properties of the registry and of the handlers *)

Import Teardown.

Lemma lookup_session_run sid w : lookup_session sid w = (Val (clients w !! sid), w, []).
Proof. reflexivity. Qed.

Lemma getSession_run sid w :
  getSession sid w
  = (Val (default new_session (clients w !! sid)),
     put_session sid (default new_session (clients w !! sid)) (next_client w) w,
     []).
Proof.
  unfold put_session. destruct (clients w !! sid) as [s|] eqn:E.
  - rewrite (getSession_known _ _ _ E). cbn [default].
    rewrite (insert_id _ _ _ E). now destruct w.
  - now rewrite (getSession_unknown _ _ E).
Qed.

(** X8.  [getSession] is get-or-create: it returns the registered
    session, or registers and returns a new one for an unseen id; either
    way the id is registered afterwards with the session returned, no
    other id is affected, nothing is sent, and a second call changes
    nothing. *)
Theorem getSession_get_or_create (sid : string) (w : connection) :
  let r := getSession sid w in
  let s := default new_session (clients w !! sid) in
  r = (Val s,
       {| clients := <[sid := s]> (clients w); next_client := next_client w |},
       [])
  /\ clients (snd (fst r)) !! sid = Some s
  /\ (forall k, k <> sid -> clients (snd (fst r)) !! k = clients w !! k)
  /\ getSession sid (snd (fst r)) = (Val s, snd (fst r), []).
Proof.
  cbv zeta. rewrite getSession_run. unfold put_session. cbn [fst snd clients].
  split; [reflexivity|].
  split; [apply lookup_insert_eq|].
  split; [intros k Hk; now apply lookup_insert_ne|].
  apply getSession_known. cbn [clients]. apply lookup_insert_eq.
Qed.

Lemma getSession_get_or_create_witness :
  clients (snd (fst (getSession "a"
                       {| clients := {[ "b" := listening 0 ]};
                          next_client := 1 |}))) !! "b"
  = Some (listening 0).
Proof.
  refine (eq_trans
            (proj1 (proj2 (proj2
               (getSession_get_or_create "a"
                  {| clients := {[ "b" := listening 0 ]}; next_client := 1 |})))
               "b" _) _);
    [discriminate | reflexivity].
Defined.

(** ** Handlers stay within their session *)

Lemma local_ret {A} sid (a : A) : local_to sid (ret a).
Proof. intros w. split; [reflexivity | constructor]. Qed.

Lemma local_throw {A} sid err : local_to sid (@throw A err).
Proof. intros w. split; [reflexivity | constructor]. Qed.

Lemma local_tell sid e : own_effect sid e -> local_to sid (tell e).
Proof. intros H w. split; [reflexivity | now repeat constructor]. Qed.

Lemma local_lookup_session sid k : local_to sid (lookup_session k).
Proof. intros w. split; [reflexivity | constructor]. Qed.

Lemma local_bind {A B} sid (m : M A) (k : A -> M B) :
  local_to sid m -> (forall a, local_to sid (k a)) -> local_to sid (bind m k).
Proof.
  intros Hm Hk w. unfold bind. destruct (Hm w) as [H1 H2].
  destruct (m w) as [[[a|e] w1] out1]; cbn [fst snd] in *; [|now split].
  destruct (Hk a w1) as [H3 H4].
  destruct (k a w1) as [[r w2] out2]. cbn [fst snd] in *. split.
  - intros j Hj. now rewrite H3, H1.
  - apply Forall_app. now split.
Qed.

Lemma local_try_catch {A} sid (m : M A) (h : string -> M A) :
  local_to sid m -> (forall e, local_to sid (h e)) -> local_to sid (try_catch m h).
Proof.
  intros Hm Hh w. unfold try_catch. destruct (Hm w) as [H1 H2].
  destruct (m w) as [[[a|e] w1] out1]; cbn [fst snd] in *; [now split|].
  destruct (Hh e w1) as [H3 H4].
  destruct (h e w1) as [[r w2] out2]. cbn [fst snd] in *. split.
  - intros j Hj. now rewrite H3, H1.
  - apply Forall_app. now split.
Qed.

Lemma local_update_session sid f : local_to sid (update_session sid f).
Proof.
  intros w. split; [|constructor]. intros k Hk. cbn.
  now apply lookup_alter_ne.
Qed.

Lemma local_insert sid s : local_to sid (with_clients (insert sid s)).
Proof.
  intros w. split; [|constructor]. intros k Hk. cbn.
  now apply lookup_insert_ne.
Qed.

Lemma local_new_client sid : local_to sid (new_client sid).
Proof.
  intros w. split; [|now repeat constructor]. intros k Hk. cbn.
  now apply lookup_alter_ne.
Qed.

Lemma local_getSession sid : local_to sid (getSession sid).
Proof.
  apply local_bind; [apply local_lookup_session|]. intros [s|].
  - apply local_ret.
  - apply local_bind; [apply local_insert | intros; apply local_ret].
Qed.

Lemma local_cleanupClient sid : local_to sid (cleanupClient sid).
Proof.
  apply local_bind; [apply local_lookup_session|]. intros [s|]; [|apply local_ret].
  destruct (client s); [|apply local_ret].
  apply local_bind; [now apply local_tell|]. intros _. apply local_update_session.
Qed.

Lemma local_connect env data sid s : local_to sid (connect env data sid s).
Proof.
  unfold connect.
  destruct (negb (has_client s) && negb (isConnecting s)); [|apply local_ret].
  apply local_bind; [apply local_update_session|]. intros _.
  destruct (truthy_opt (SPEECHMATICS_API_KEY env)); [|apply local_throw].
  apply local_bind; [apply local_new_client|]. intros c.
  apply local_try_catch.
  - apply local_bind; [now apply local_tell|]. intros _.
    destruct (jwt_resolves env); [|apply local_throw].
    apply local_bind; [now apply local_tell|]. intros _.
    destruct (start_resolves env); [apply local_ret | apply local_throw].
  - intros _. apply local_bind; [apply local_cleanupClient|]. intros _.
    apply local_bind; [now apply local_tell | intros; apply local_ret].
Qed.

Lemma local_wait_for_connection env sid : local_to sid (wait_for_connection env sid).
Proof.
  apply local_bind; [apply local_lookup_session|]. intros [s|]; [|apply local_throw].
  destruct (isConnected s); [apply local_ret|].
  destruct (has_client s && started_in_time env);
    [apply local_update_session | apply local_throw].
Qed.

Lemma local_forward env data sid : local_to sid (forward env data sid).
Proof.
  unfold forward. destruct (split_comma_1 (audio data)); [|apply local_throw].
  apply local_bind; [apply local_lookup_session|].
  intros [[[c|] [|] ? ? ? ?]|]; try apply local_throw.
  apply local_bind; [now apply local_tell|]. intros _.
  destruct (sendAudio_resolves env); [apply local_ret | apply local_throw].
Qed.

Lemma local_audioData env data :
  local_to (or_default (sessionId data)) (audioData env data).
Proof.
  apply local_try_catch.
  - apply local_bind; [apply local_getSession|]. intros s.
    apply local_bind; [apply local_connect|]. intros [|]; [|apply local_ret].
    apply local_bind; [apply local_wait_for_connection|]. intros _.
    apply local_forward.
  - intros _. apply local_bind; [apply local_cleanupClient|]. intros _.
    now apply local_tell.
Qed.

Lemma local_flush_and_cleanup sid : local_to sid (flush_and_cleanup sid).
Proof.
  apply local_bind; [apply local_lookup_session|]. intros [s|]; [|apply local_ret].
  destruct (has_client s); [|apply local_ret].
  apply local_bind; [|intros; apply local_cleanupClient].
  destruct (truthy (currentText s)); [now apply local_tell | apply local_ret].
Qed.

Lemma stopRecording_flush_and_cleanup d :
  stopRecording d = flush_and_cleanup (or_default d).
Proof. reflexivity. Qed.

(** X9.  A chunk or a stop command for one session leaves the entry of
    every other session as it was, and every transcription or error it
    sends carries its own session id. *)
Theorem handlers_stay_in_session
    (env : environment) (data : audioData_payload) (d : option string)
    (w : connection) :
  ((forall k, k <> or_default (sessionId data) ->
              clients (connection_of (audioData env data w)) !! k
              = clients w !! k)
   /\ Forall (own_effect (or_default (sessionId data)))
        (effects_of (audioData env data w)))
  /\ ((forall k, k <> or_default d ->
                 clients (connection_of (stopRecording d w)) !! k
                 = clients w !! k)
      /\ Forall (own_effect (or_default d)) (effects_of (stopRecording d w))).
Proof.
  split.
  - apply (local_audioData env data w).
  - rewrite stopRecording_flush_and_cleanup.
    apply (local_flush_and_cleanup (or_default d) w).
Qed.

Lemma handlers_stay_in_session_witness :
  clients (connection_of
             (audioData key_missing (chunk "a")
                {| clients := {[ "b" := listening 0 ]}; next_client := 1 |}))
    !! "b"
  = Some (listening 0).
Proof.
  refine (eq_trans
            (proj1 (proj1
               (handlers_stay_in_session key_missing (chunk "a") None
                  {| clients := {[ "b" := listening 0 ]}; next_client := 1 |}))
               "b" _) _);
    [discriminate | reflexivity].
Defined.

(** ** The [audioData] handler, path by path *)

Lemma put_session_id sid s w :
  clients w !! sid = Some s -> put_session sid s (next_client w) w = w.
Proof.
  intros H. unfold put_session. rewrite (insert_id _ _ _ H). now destruct w.
Qed.

Lemma put_session_lookup sid s n w : clients (put_session sid s n w) !! sid = Some s.
Proof. apply lookup_insert_eq. Qed.

Lemma put_session_put sid s1 n1 s2 n2 w :
  put_session sid s2 n2 (put_session sid s1 n1 w) = put_session sid s2 n2 w.
Proof. unfold put_session. cbn [clients]. now rewrite insert_insert_eq. Qed.

Lemma update_session_run sid f w s :
  clients w !! sid = Some s ->
  update_session sid f w = (Val tt, put_session sid (f s) (next_client w) w, []).
Proof.
  intros H. unfold update_session, with_clients, put_session.
  do 2 f_equal. f_equal. apply map_eq. intros k.
  destruct (decide (sid = k)) as [<-|Hk].
  - now rewrite lookup_alter_eq, lookup_insert_eq, H.
  - now rewrite lookup_alter_ne, lookup_insert_ne.
Qed.

Lemma new_client_run sid w s :
  clients w !! sid = Some s ->
  new_client sid w
  = (Val (next_client w),
     put_session sid (set_client (Some (next_client w)) s) (S (next_client w)) w,
     [NewClient (next_client w)]).
Proof.
  intros H. unfold new_client, put_session.
  do 2 f_equal. f_equal. apply map_eq. intros k.
  destruct (decide (sid = k)) as [<-|Hk].
  - now rewrite lookup_alter_eq, lookup_insert_eq, H.
  - now rewrite lookup_alter_ne, lookup_insert_ne.
Qed.

Lemma cleanupClient_run sid w s :
  clients w !! sid = Some s ->
  cleanupClient sid w
  = match client s with
    | Some c => (Val tt, put_session sid new_session (next_client w) w,
                 [StopRecognition c])
    | None => (Val tt, w, [])
    end.
Proof.
  intros H. destruct (client s) as [c|] eqn:E.
  - apply (cleanupClient_live _ _ _ _ H E).
  - apply (cleanupClient_released _ _ _ H E).
Qed.

Lemma wait_for_connection_run env sid w s :
  clients w !! sid = Some s ->
  wait_for_connection env sid w
  = if isConnected s then (Val tt, w, [])
    else if has_client s && started_in_time env
         then (Val tt,
               put_session sid (set_connection_flags true false s)
                 (next_client w) w, [])
         else (Thrown "Connection timeout", w, []).
Proof.
  intros H. unfold wait_for_connection, bind. rewrite lookup_session_run, H.
  destruct (isConnected s) eqn:E; [reflexivity|].
  destruct (has_client s && started_in_time env); [|reflexivity].
  rewrite (update_session_run _ _ _ _ H). unfold receiveMessage.
  rewrite E. reflexivity.
Qed.

Lemma forward_run env data sid w s :
  clients w !! sid = Some s ->
  forward env data sid w
  = match split_comma_1 (audio data) with
    | None => (Thrown "TypeError", w, [])
    | Some base64 =>
        match client s, isConnected s with
        | Some c, true =>
            (if sendAudio_resolves env then Val tt
             else Thrown "sendAudio rejected", w, [SendAudio c base64])
        | _, _ => (Thrown "Speech service not connected", w, [])
        end
    end.
Proof.
  intros H. unfold forward.
  destruct (split_comma_1 (audio data)) as [p|]; [|reflexivity].
  unfold bind. rewrite lookup_session_run, H.
  destruct s as [[c|] [|] cg sp tx st]; cbn [client isConnected]; try reflexivity.
  unfold tell. now destruct (sendAudio_resolves env).
Qed.

(** The outer [catch] of the handler. *)
Lemma audioData_catch sid w s :
  clients w !! sid = Some s ->
  (cleanupClient sid ;;; tell (EmitError "Error processing audio" sid)) w
  = match client s with
    | Some c => (Val tt, put_session sid new_session (next_client w) w,
                 [StopRecognition c; EmitError "Error processing audio" sid])
    | None => (Val tt, w, [EmitError "Error processing audio" sid])
    end.
Proof.
  intros H. unfold bind. rewrite (cleanupClient_run _ _ _ H).
  now destruct (client s).
Qed.

(** X10.  A chunk for a session that holds a client is forwarded to
    that client exactly when the session is connected, or the
    recogniser's acknowledgement arrives in time, the chunk has a
    payload after a comma, and [sendAudio] resolves; the session is then
    left as it was, marked connected if the acknowledgement had still
    been awaited.  In every other case the session is ended: on the
    connection timeout and on a chunk without a comma nothing is
    forwarded, on a rejected [sendAudio] the chunk has been handed over;
    then the client is stopped, the session is reset to the values of a
    new one, its open turn discarded without being sent, and one error,
    "Error processing audio", is reported.  No second client is created
    and no token is requested. *)
Theorem audioData_with_client
    (env : environment) (data : audioData_payload) (w : connection)
    (s : session) (c : nat) :
  let sid := or_default (sessionId data) in
  let ended := put_session sid new_session (next_client w) w in
  let report := [StopRecognition c; EmitError "Error processing audio" sid] in
  clients w !! sid = Some s ->
  client s = Some c ->
  audioData env data w
  = if isConnected s || started_in_time env
    then
      match split_comma_1 (audio data) with
      | Some base64 =>
          if sendAudio_resolves env
          then
            (Val tt,
             put_session sid
               (if isConnected s then s else set_connection_flags true false s)
               (next_client w) w,
             [SendAudio c base64])
          else (Val tt, ended, SendAudio c base64 :: report)
      | None => (Val tt, ended, report)
      end
    else (Val tt, ended, report).
Proof.
  intros sid ended report Hs Hc.
  assert (has_client s = true) as Hh by (unfold has_client; now rewrite Hc).
  pose proof (put_session_lookup sid (set_connection_flags true false s)
                (next_client w) w) as Hs'.
  unfold audioData, try_catch. fold sid.
  unfold bind at 1. rewrite (getSession_known _ _ _ Hs).
  unfold connect. rewrite Hh. cbn [negb andb].
  unfold bind at 1. unfold ret at 1. unfold bind at 1.
  rewrite (wait_for_connection_run _ _ _ _ Hs), Hh. cbn [andb].
  destruct (isConnected s) eqn:Hcon; cbn [orb].
  - rewrite (forward_run _ _ _ _ _ Hs), Hc, Hcon.
    destruct (split_comma_1 (audio data)) as [p|] eqn:Hp.
    + destruct (sendAudio_resolves env).
      * cbn [app]. now rewrite (put_session_id _ _ _ Hs).
      * rewrite (audioData_catch _ _ _ Hs), Hc. reflexivity.
    + rewrite (audioData_catch _ _ _ Hs), Hc. reflexivity.
  - destruct (started_in_time env).
    + rewrite (forward_run _ _ _ _ _ Hs').
      cbn [client isConnected set_connection_flags]. rewrite Hc.
      destruct (split_comma_1 (audio data)) as [p|] eqn:Hp.
      * destruct (sendAudio_resolves env); [reflexivity|].
        rewrite (audioData_catch _ _ _ Hs').
        cbn [client set_connection_flags]. rewrite Hc.
        now rewrite put_session_put.
      * rewrite (audioData_catch _ _ _ Hs').
        cbn [client set_connection_flags]. rewrite Hc.
        now rewrite put_session_put.
    + rewrite (audioData_catch _ _ _ Hs), Hc. reflexivity.
Qed.

Lemma audioData_with_client_witness :
  audioData (all_resolve "key") (chunk "a")
    {| clients := {[ "a" := connected_session 0 ]}; next_client := 1 |}
  = (Val tt,
     put_session "a" (connected_session 0) 1
       {| clients := {[ "a" := connected_session 0 ]}; next_client := 1 |},
     [SendAudio 0 "AAAA"]).
Proof.
  exact (audioData_with_client (all_resolve "key") (chunk "a")
           {| clients := {[ "a" := connected_session 0 ]}; next_client := 1 |}
           (connected_session 0) 0 eq_refl eq_refl).
Defined.

(** The block that sets a client up, run on a session that has no
    client and is not connecting. *)
Lemma connect_run env data sid w s :
  clients w !! sid = Some s ->
  client s = None -> isConnecting s = false ->
  let n := next_client w in
  let marked := set_connection_flags (isConnected s) true s in
  connect env data sid s w
  = match truthy_opt (SPEECHMATICS_API_KEY env) with
    | None =>
        (Thrown "SPEECHMATICS_API_KEY not set", put_session sid marked n w, [])
    | Some apiKey =>
        if jwt_resolves env
        then
          if start_resolves env
          then
            (Val true, put_session sid (set_client (Some n) marked) (S n) w,
             [NewClient n; CreateJWT apiKey;
              Start n (truthy_opt (doctorSpeakerIdentifier data))])
          else
            (Val false, put_session sid new_session (S n) w,
             [NewClient n; CreateJWT apiKey;
              Start n (truthy_opt (doctorSpeakerIdentifier data));
              StopRecognition n;
              EmitError "Connection error with speech service" sid])
        else
          (Val false, put_session sid new_session (S n) w,
           [NewClient n; CreateJWT apiKey; StopRecognition n;
            EmitError "Connection error with speech service" sid])
    end.
Proof.
  intros Hs Hc Hg n marked.
  unfold connect, has_client. rewrite Hc, Hg. cbn [negb andb].
  unfold bind at 1. rewrite (update_session_run _ _ _ _ Hs). fold marked. fold n.
  destruct (truthy_opt (SPEECHMATICS_API_KEY env)) as [key|]; [|reflexivity].
  pose proof (put_session_lookup sid marked n w) as Hm.
  unfold bind at 1. rewrite (new_client_run _ _ _ Hm).
  cbn [next_client put_session]. fold (put_session sid marked n w).
  rewrite put_session_put.
  pose proof (put_session_lookup sid (set_client (Some n) marked) (S n) w) as Hn.
  assert (cleanupClient sid (put_session sid (set_client (Some n) marked) (S n) w)
          = (Val tt, put_session sid new_session (S n) w, [StopRecognition n]))
    as Hclean.
  { rewrite (cleanupClient_run _ _ _ Hn). cbn [client set_client next_client
                                                put_session].
    fold (put_session sid (set_client (Some n) marked) (S n) w).
    now rewrite put_session_put. }
  unfold try_catch, bind, tell, ret, throw.
  destruct (jwt_resolves env); [destruct (start_resolves env)|];
    try reflexivity; now rewrite Hclean.
Qed.

Lemma audioData_connects
    (env : environment) (data : audioData_payload) (w : connection)
    (apiKey base64 : string) :
  let sid := or_default (sessionId data) in
  let s := default new_session (clients w !! sid) in
  let n := next_client w in
  client s = None -> isConnecting s = false -> isConnected s = false ->
  truthy_opt (SPEECHMATICS_API_KEY env) = Some apiKey ->
  jwt_resolves env = true -> start_resolves env = true ->
  started_in_time env = true -> sendAudio_resolves env = true ->
  split_comma_1 (audio data) = Some base64 ->
  audioData env data w
  = (Val tt,
     put_session sid (set_connection_flags true false (set_client (Some n) s))
       (S n) w,
     [NewClient n; CreateJWT apiKey;
      Start n (truthy_opt (doctorSpeakerIdentifier data));
      SendAudio n base64]).
Proof.
  intros sid s n Hc Hg Hcon Hkey Hjwt Hstart Hack Hsend Hp.
  unfold audioData, try_catch. fold sid.
  unfold bind at 1. rewrite getSession_run. fold s. fold n.
  pose proof (put_session_lookup sid s n w) as Hs.
  unfold bind at 1.
  rewrite (connect_run env data sid _ s Hs Hc Hg), Hkey, Hjwt, Hstart.
  cbn [next_client put_session]. fold (put_session sid s n w).
  rewrite put_session_put, Hcon.
  set (s1 := set_client (Some n) (set_connection_flags false true s)).
  pose proof (put_session_lookup sid s1 (S n) w) as Hs1.
  unfold bind at 1. rewrite (wait_for_connection_run _ _ _ _ Hs1).
  cbn [isConnected has_client client s1 set_client set_connection_flags andb].
  rewrite Hack. fold s1.
  cbn [next_client put_session]. fold (put_session sid s1 (S n) w).
  rewrite put_session_put.
  pose proof (put_session_lookup sid (set_connection_flags true false s1)
                (S n) w) as Hs2.
  rewrite (forward_run _ _ _ _ _ Hs2), Hp.
  cbn [client isConnected set_connection_flags s1 set_client]. rewrite Hsend.
  reflexivity.
Qed.

(** X11.  The first chunk for a session that has no client yet (an
    unseen id, or a session left reset), when the key is set and every
    awaited call resolves: one client is created, one token requested
    with the key, the client started with the doctor's speaker
    identifier exactly when a non-empty one came with the chunk, and the
    payload forwarded to the new client; the session ends up connected
    to it. *)
Theorem first_chunk_connects
    (env : environment) (data : audioData_payload) (w : connection)
    (apiKey base64 : string) :
  let sid := or_default (sessionId data) in
  let s := default new_session (clients w !! sid) in
  let n := next_client w in
  client s = None -> isConnecting s = false -> isConnected s = false ->
  truthy_opt (SPEECHMATICS_API_KEY env) = Some apiKey ->
  jwt_resolves env = true -> start_resolves env = true ->
  started_in_time env = true -> sendAudio_resolves env = true ->
  split_comma_1 (audio data) = Some base64 ->
  audioData env data w
  = (Val tt,
     put_session sid (set_connection_flags true false (set_client (Some n) s))
       (S n) w,
     [NewClient n; CreateJWT apiKey;
      Start n (truthy_opt (doctorSpeakerIdentifier data));
      SendAudio n base64]).
Proof. apply audioData_connects. Qed.

Lemma first_chunk_connects_witness :
  audioData (all_resolve "key")
    {| sessionId := Some "a"; audio := "data:audio/webm;base64,AAAA";
       doctorSpeakerIdentifier := Some "doc-7" |}
    fresh_connection
  = (Val tt,
     put_session "a" (connected_session 0) 1 fresh_connection,
     [NewClient 0; CreateJWT "key"; Start 0 (Some "doc-7"); SendAudio 0 "AAAA"]).
Proof.
  exact (first_chunk_connects (all_resolve "key")
           {| sessionId := Some "a"; audio := "data:audio/webm;base64,AAAA";
              doctorSpeakerIdentifier := Some "doc-7" |}
           fresh_connection "key" "AAAA"
           eq_refl eq_refl eq_refl eq_refl eq_refl eq_refl eq_refl eq_refl
           eq_refl).
Defined.

(** X12.  When the token request or [client.start] is rejected for a
    session that had no client, the client just created is stopped and
    the session reset to the values of a new one before the one error,
    "Connection error with speech service", is reported; nothing is
    forwarded and the handler returns without a second error. *)
Theorem connection_failure_resets
    (env : environment) (data : audioData_payload) (w : connection)
    (apiKey : string) :
  let sid := or_default (sessionId data) in
  let s := default new_session (clients w !! sid) in
  let n := next_client w in
  client s = None -> isConnecting s = false ->
  truthy_opt (SPEECHMATICS_API_KEY env) = Some apiKey ->
  jwt_resolves env && start_resolves env = false ->
  audioData env data w
  = (Val tt, put_session sid new_session (S n) w,
     ([NewClient n; CreateJWT apiKey]
      ++ (if jwt_resolves env
          then [Start n (truthy_opt (doctorSpeakerIdentifier data))]
          else [])
      ++ [StopRecognition n;
          EmitError "Connection error with speech service" sid])%list).
Proof.
  intros sid s n Hc Hg Hkey Hfail.
  unfold audioData, try_catch. fold sid.
  unfold bind at 1. rewrite getSession_run. fold s. fold n.
  pose proof (put_session_lookup sid s n w) as Hs.
  unfold bind at 1.
  rewrite (connect_run env data sid _ s Hs Hc Hg), Hkey.
  cbn [next_client put_session]. fold (put_session sid s n w).
  destruct (jwt_resolves env); [destruct (start_resolves env)|];
    try discriminate; rewrite put_session_put; reflexivity.
Qed.

Lemma connection_failure_resets_witness :
  audioData
    {| SPEECHMATICS_API_KEY := Some "key"; jwt_resolves := true;
       start_resolves := false; started_in_time := true;
       sendAudio_resolves := true |}
    (chunk "a") fresh_connection
  = (Val tt, put_session "a" new_session 1 fresh_connection,
     [NewClient 0; CreateJWT "key"; Start 0 None; StopRecognition 0;
      EmitError "Connection error with speech service" "a"]).
Proof.
  exact (connection_failure_resets
           {| SPEECHMATICS_API_KEY := Some "key"; jwt_resolves := true;
              start_resolves := false; started_in_time := true;
              sendAudio_resolves := true |}
           (chunk "a") fresh_connection "key"
           eq_refl eq_refl eq_refl eq_refl).
Defined.

(** ** Stop and disconnect *)

Lemma flush_and_cleanup_run sid w :
  flush_and_cleanup sid w
  = match clients w !! sid with
    | Some s =>
        match client s with
        | Some c =>
            (Val tt, put_session sid new_session (next_client w) w,
             ((if truthy (currentText s)
               then [final_segment (currentSpeaker s)
                       (formatText (trim (currentText s))) sid]
               else [])
              ++ [StopRecognition c])%list)
        | None => (Val tt, w, [])
        end
    | None => (Val tt, w, [])
    end.
Proof.
  unfold flush_and_cleanup. unfold bind at 1. rewrite lookup_session_run.
  destruct (clients w !! sid) as [s|] eqn:Hs; [|reflexivity].
  unfold has_client. destruct (client s) as [c|] eqn:Hc; [|reflexivity].
  unfold bind, tell, ret.
  destruct (truthy (currentText s)); now rewrite (cleanupClient_live _ _ _ _ Hs Hc).
Qed.

Lemma flush_and_cleanup_again sid w :
  flush_and_cleanup sid (snd (fst (flush_and_cleanup sid w)))
  = (Val tt, snd (fst (flush_and_cleanup sid w)), []).
Proof.
  rewrite (flush_and_cleanup_run sid w).
  destruct (clients w !! sid) as [s|] eqn:Hs;
    [destruct (client s) as [c|] eqn:Hc|]; cbn [fst snd].
  - rewrite flush_and_cleanup_run, put_session_lookup. reflexivity.
  - now rewrite flush_and_cleanup_run, Hs, Hc.
  - now rewrite flush_and_cleanup_run, Hs.
Qed.

(** X13.  [stopRecording] is idempotent as a whole: a second stop
    command for the same session, right after the first, sends nothing,
    stops nothing and changes nothing, so the open turn is flushed once
    and the client stopped once. *)
Theorem stopRecording_idempotent (d : option string) (w : connection) :
  fst (fst (stopRecording d w)) = Val tt
  /\ stopRecording d (connection_of (stopRecording d w))
     = (Val tt, connection_of (stopRecording d w), [])
  /\ (stopRecording d ;;; stopRecording d) w = stopRecording d w.
Proof.
  rewrite !stopRecording_flush_and_cleanup. unfold connection_of.
  pose proof (flush_and_cleanup_again (or_default d) w) as H.
  assert (fst (fst (flush_and_cleanup (or_default d) w)) = Val tt) as Hv.
  { rewrite flush_and_cleanup_run.
    destruct (clients w !! or_default d) as [s|]; [destruct (client s)|];
      reflexivity. }
  split; [exact Hv|]. split; [exact H|].
  unfold bind.
  destruct (flush_and_cleanup (or_default d) w) as [[r w1] out1].
  cbn [fst snd] in *. subst r. rewrite H. now rewrite app_nil_r.
Qed.

(** X14.  Stop, then record again: after a stop command for a session
    with a client, the next chunk for the same session, in an
    environment where the key is set and every call resolves, sets up
    and starts a new client and forwards the chunk to it; what was left
    of the open turn has been sent before the old client was stopped. *)
Theorem stop_then_chunk_reconnects
    (env : environment) (data : audioData_payload) (d : option string)
    (w : connection) (s : session) (c : nat) (apiKey base64 : string) :
  let sid := or_default d in
  let n := next_client w in
  or_default (sessionId data) = sid ->
  clients w !! sid = Some s ->
  client s = Some c ->
  truthy_opt (SPEECHMATICS_API_KEY env) = Some apiKey ->
  jwt_resolves env = true -> start_resolves env = true ->
  started_in_time env = true -> sendAudio_resolves env = true ->
  split_comma_1 (audio data) = Some base64 ->
  (stopRecording d ;;; audioData env data) w
  = (Val tt, put_session sid (connected_session n) (S n) w,
     ((if truthy (currentText s)
       then [final_segment (currentSpeaker s)
               (formatText (trim (currentText s))) sid]
       else [])
      ++ [StopRecognition c; NewClient n; CreateJWT apiKey;
          Start n (truthy_opt (doctorSpeakerIdentifier data));
          SendAudio n base64])%list).
Proof.
  intros sid n Hsid Hs Hc Hkey Hjwt Hstart Hack Hsend Hp.
  rewrite stopRecording_flush_and_cleanup. fold sid.
  unfold bind. rewrite flush_and_cleanup_run, Hs, Hc.
  pose proof (audioData_connects env data
                (put_session sid new_session (next_client w) w)
                apiKey base64) as H.
  cbv zeta in H. rewrite Hsid, put_session_lookup in H.
  rewrite (H eq_refl eq_refl eq_refl Hkey Hjwt Hstart Hack Hsend Hp).
  cbn [next_client put_session default]. fold n.
  fold (put_session sid new_session n w). rewrite put_session_put.
  rewrite <- app_assoc. reflexivity.
Qed.

Lemma stop_then_chunk_reconnects_witness :
  (stopRecording (Some "a") ;;; audioData (all_resolve "key") (chunk "a"))
    {| clients := {[ "a" := set_turn "S1" "I feel fine" (connected_session 0) ]};
       next_client := 1 |}
  = (Val tt,
     put_session "a" (connected_session 1) 2
       {| clients := {[ "a" := set_turn "S1" "I feel fine" (connected_session 0) ]};
          next_client := 1 |},
     [final_segment "S1" "I feel fine" "a"; StopRecognition 0; NewClient 1;
      CreateJWT "key"; Start 1 None; SendAudio 1 "AAAA"]).
Proof.
  exact (stop_then_chunk_reconnects (all_resolve "key") (chunk "a") (Some "a")
           {| clients :=
                {[ "a" := set_turn "S1" "I feel fine" (connected_session 0) ]};
              next_client := 1 |}
           (set_turn "S1" "I feel fine" (connected_session 0)) 0 "key" "AAAA"
           eq_refl eq_refl eq_refl eq_refl eq_refl eq_refl eq_refl eq_refl
           eq_refl).
Defined.

Lemma transcriptions_of_foreign a k out :
  k <> a -> Forall (own_effect k) out -> transcriptions_of a out = [].
Proof.
  intros Hk H. induction H as [|e out He _ IH]; [reflexivity|].
  cbn [transcriptions_of].
  destruct e as [seg p sid'| | | | | |]; try exact IH.
  cbn in He. subst sid'. apply String.eqb_neq in Hk. now rewrite Hk.
Qed.

Lemma last_words_released o :
  (forall s, o = Some s -> client s = None) -> last_words o = [].
Proof.
  intros H. destruct o as [s|]; [|reflexivity]. unfold last_words, has_client.
  now rewrite (H s eq_refl).
Qed.

(** The transcriptions that one step of the loop sends for a session,
    and the entry it leaves for it. *)
Lemma flush_and_cleanup_for a k w :
  transcriptions_of a (snd (flush_and_cleanup k w))
  = (if decide (k = a) then last_words (clients w !! a) else [])
  /\ (if decide (k = a)
      then forall s, clients (snd (fst (flush_and_cleanup k w))) !! a = Some s ->
                     client s = None
      else clients (snd (fst (flush_and_cleanup k w))) !! a = clients w !! a).
Proof.
  destruct (decide (k = a)) as [->|Hk].
  - rewrite flush_and_cleanup_run. unfold last_words, has_client.
    destruct (clients w !! a) as [s|] eqn:Hs;
      [destruct (client s) as [c|] eqn:Hc|]; cbn [fst snd andb].
    + split.
      * destruct (truthy (currentText s)); cbn [app transcriptions_of final_segment];
          now rewrite ?String.eqb_refl.
      * intros s'. rewrite put_session_lookup. now intros [= <-].
    + split; [reflexivity|]. intros s'. rewrite Hs. now intros [= <-].
    + split; [reflexivity|]. intros s'. now rewrite Hs.
  - destruct (local_flush_and_cleanup k w) as [H1 H2]. split.
    + now apply (transcriptions_of_foreign a k).
    + apply H1. congruence.
Qed.

Lemma flush_and_cleanup_value k w : fst (fst (flush_and_cleanup k w)) = Val tt.
Proof.
  rewrite flush_and_cleanup_run.
  destruct (clients w !! k) as [s|]; [destruct (client s)|]; reflexivity.
Qed.

Lemma for_each_flush_value order : forall w,
  fst (fst (for_each order flush_and_cleanup w)) = Val tt.
Proof.
  induction order as [|k order IH]; intros w; [reflexivity|].
  cbn [for_each]. unfold bind.
  pose proof (flush_and_cleanup_value k w) as Hk.
  destruct (flush_and_cleanup k w) as [[r w1] out1]. cbn [fst] in Hk. subst r.
  specialize (IH w1).
  destruct (for_each order flush_and_cleanup w1) as [[r2 w2] out2].
  exact IH.
Qed.

(** The loop sends, for each session, its last words if the session is
    visited, and nothing if it is not. *)
Lemma for_each_flush_transcriptions a order : forall w,
  transcriptions_of a (snd (for_each order flush_and_cleanup w))
  = if decide (a ∈ order) then last_words (clients w !! a) else [].
Proof.
  induction order as [|k order IH]; intros w.
  - cbn. now rewrite decide_False by apply not_elem_of_nil.
  - cbn [for_each]. unfold bind.
    pose proof (flush_and_cleanup_value k w) as Hv.
    destruct (flush_and_cleanup_for a k w) as [Ht Hc].
    destruct (flush_and_cleanup k w) as [[r w1] out1]. cbn [fst snd] in *.
    subst r. specialize (IH w1).
    destruct (for_each order flush_and_cleanup w1) as [[r2 w2] out2].
    cbn [fst snd] in *. rewrite transcriptions_of_app, Ht, IH.
    destruct (decide (k = a)) as [->|Hk].
    + rewrite (decide_True (P := a ∈ a :: order)) by apply list_elem_of_here.
      rewrite (last_words_released _ Hc).
      destruct (decide (a ∈ order)); now rewrite app_nil_r.
    + rewrite Hc. cbn [app].
      destruct (decide (a ∈ order)) as [Hin|Hin].
      * now rewrite decide_True by now apply list_elem_of_further.
      * rewrite decide_False; [reflexivity|].
        intros [?|?]%elem_of_cons; congruence.
Qed.

(** Every client held by a visited session is stopped. *)
Lemma for_each_flush_stops a order : forall w s c,
  a ∈ order -> clients w !! a = Some s -> client s = Some c ->
  In (StopRecognition c) (snd (for_each order flush_and_cleanup w)).
Proof.
  induction order as [|k order IH]; intros w s c Hin Hs Hc.
  - now apply not_elem_of_nil in Hin.
  - cbn [for_each]. unfold bind.
    pose proof (flush_and_cleanup_value k w) as Hv.
    pose proof (flush_and_cleanup_run k w) as Hrun.
    destruct (flush_and_cleanup_for a k w) as [_ Hframe].
    destruct (flush_and_cleanup k w) as [[r w1] out1]. cbn [fst snd] in *.
    subst r.
    destruct (decide (k = a)) as [->|Hk].
    + rewrite Hs, Hc in Hrun. injection Hrun as _ ->.
      destruct (for_each order flush_and_cleanup w1) as [[r2 w2] out2].
      cbn [snd]. apply in_or_app. left. apply in_or_app. right. now left.
    + apply elem_of_cons in Hin as [?|Hin]; [congruence|].
      rewrite <- Hframe in Hs. specialize (IH w1 s c Hin Hs Hc).
      destruct (for_each order flush_and_cleanup w1) as [[r2 w2] out2].
      cbn [snd] in *. apply in_or_app. now right.
Qed.

(** X15.  On [disconnect], whatever the order in which the registered
    sessions are visited: every session with a client and a non-empty
    open turn has that turn sent as one final segment (speaker, text
    trimmed and formatted once more); no other transcription is sent;
    the client of every session that holds one is stopped; and the map
    of sessions is empty afterwards. *)
Theorem disconnect_flushes_all (order : list string) (w : connection) :
  (forall k, is_Some (clients w !! k) -> k ∈ order) ->
  fst (fst (disconnect order w)) = Val tt
  /\ clients (connection_of (disconnect order w)) = ∅
  /\ (forall a, transcriptions_of a (effects_of (disconnect order w))
                = last_words (clients w !! a))
  /\ (forall a s c, clients w !! a = Some s -> client s = Some c ->
                    In (StopRecognition c) (effects_of (disconnect order w))).
Proof.
  intros Hall. unfold disconnect, connection_of, effects_of, bind.
  pose proof (for_each_flush_value order w) as Hv.
  pose proof (fun a => for_each_flush_transcriptions a order w) as Ht.
  pose proof (fun a => for_each_flush_stops a order w) as Hst.
  destruct (for_each order flush_and_cleanup w) as [[r w1] out1].
  cbn [fst snd] in *. subst r. cbn [with_clients fst snd clients].
  rewrite app_nil_r. repeat split.
  - intros a. rewrite Ht. destruct (decide (a ∈ order)) as [|Hn]; [reflexivity|].
    destruct (clients w !! a) as [s|] eqn:Hs; [|reflexivity].
    exfalso. apply Hn, Hall. now rewrite Hs.
  - intros a s c Hs Hc. apply (Hst a s c); [|exact Hs|exact Hc].
    apply Hall. now rewrite Hs.
Qed.

Lemma disconnect_flushes_all_witness :
  let w := {| clients :=
                <[ "a" := set_turn "S1" "I feel fine" (connected_session 0) ]>
                  {[ "b" := connected_session 1 ]};
              next_client := 2 |} in
  transcriptions_of "a" (effects_of (disconnect ["b"; "a"] w))
  = [({| seg_speaker := "S1"; seg_text := "I feel fine" |}, false)].
Proof.
  refine (eq_trans
            (proj1 (proj2 (proj2
               (disconnect_flushes_all ["b"; "a"]
                  {| clients :=
                       <[ "a" := set_turn "S1" "I feel fine"
                                   (connected_session 0) ]>
                         {[ "b" := connected_session 1 ]};
                     next_client := 2 |} _))) "a") _);
    [|reflexivity].
  intros k [s Hs]. cbn [clients] in Hs.
  destruct (decide (k = "a")) as [->|Ha]; [set_solver|].
  destruct (decide (k = "b")) as [->|Hb]; [set_solver|].
  rewrite lookup_insert_ne, lookup_singleton_ne in Hs by congruence.
  discriminate.
Defined.

(** ** The payload of a chunk *)

Lemma until_comma_free s : comma_free s = true -> until_comma s = s.
Proof.
  induction s as [|c s IH]; [reflexivity|]. cbn.
  destruct (c =? ",")%char; [discriminate|]. cbn. intros H. now rewrite IH.
Qed.

Lemma until_comma_app s rest :
  comma_free s = true -> until_comma (s +:+ "," +:+ rest) = s.
Proof.
  induction s as [|c s IH]; [reflexivity|]. rewrite append_cons. cbn.
  destruct (c =? ",")%char; [discriminate|]. cbn. intros H. now rewrite IH.
Qed.

Lemma split_comma_1_app prefix s :
  comma_free prefix = true ->
  split_comma_1 (prefix +:+ "," +:+ s) = Some (until_comma s).
Proof.
  induction prefix as [|c p IH]; [reflexivity|]. rewrite append_cons. cbn.
  destruct (c =? ",")%char; [discriminate|]. cbn. exact IH.
Qed.

(** X16.  The payload taken from a chunk is what stands between the
    first comma and the second, or the end: without a comma there is
    none; for [prefix,payload] it is the payload, also when more commas
    follow. *)
Theorem split_comma_1_payload (prefix payload : string) :
  comma_free prefix = true ->
  comma_free payload = true ->
  split_comma_1 prefix = None
  /\ split_comma_1 (prefix +:+ "," +:+ payload) = Some payload
  /\ forall rest,
      split_comma_1 (prefix +:+ "," +:+ payload +:+ "," +:+ rest) = Some payload.
Proof.
  intros Hp Hq. split; [|split].
  - induction prefix as [|c p IH]; [reflexivity|]. cbn in *.
    destruct (c =? ",")%char; [discriminate|]. now apply IH.
  - now rewrite split_comma_1_app, until_comma_free.
  - intros rest. now rewrite split_comma_1_app, until_comma_app.
Qed.

Lemma split_comma_1_payload_witness :
  split_comma_1 "data:audio/webm;base64,AAAA" = Some "AAAA".
Proof.
  exact (proj1 (proj2 (split_comma_1_payload "data:audio/webm;base64" "AAAA"
                         eq_refl eq_refl))).
Defined.

(** * The handlers of the single-session server *)

(** X17.  In the single-session server a chunk that arrives while the
    key is not set reports one error and leaves the server exactly as it
    was, so that the next chunk, once the key is set and the calls
    resolve, creates the client, starts it and is forwarded. *)
Theorem single_missing_key_retries
    (env1 env2 : SingleServer.environment) (audio1 audio2 : string)
    (sv : SingleServer.server) (apiKey base64 : string) :
  Single.client (SingleServer.vars sv) = None ->
  truthy_opt (SingleServer.SPEECHMATICS_API_KEY env1) = None ->
  truthy_opt (SingleServer.SPEECHMATICS_API_KEY env2) = Some apiKey ->
  SingleServer.jwt_resolves env2 = true ->
  SingleServer.start_resolves env2 = true ->
  SingleServer.sendAudio_resolves env2 = true ->
  split_comma_1 audio2 = Some base64 ->
  let n := SingleServer.next_client sv in
  SingleServer.audioData env1 audio1 sv
  = (SingleServer.Val tt, sv,
     [SingleServer.EmitError "Error processing audio"])
  /\ SingleServer.audioData env2 audio2 sv
     = (SingleServer.Val tt,
        {| SingleServer.vars :=
             SingleServer.set_isConnected true
               (SingleServer.set_client (Some n) (SingleServer.vars sv));
           SingleServer.next_client := S n |},
        [SingleServer.NewClient n; SingleServer.CreateJWT apiKey;
         SingleServer.Start n; SingleServer.SendAudio n base64]).
Proof.
  destruct sv as [[cl con sp tx stx] n0]. cbn. intros -> Hk1 Hk2 Hj Hs Hsend Hp.
  split; single_run.
  - now rewrite Hk1.
  - rewrite Hk2. single_run. rewrite Hj. single_run. rewrite Hs. single_run.
    rewrite Hp. single_run. now rewrite Hsend.
Qed.

Lemma single_missing_key_retries_witness :
  SingleServer.audioData
    {| SingleServer.SPEECHMATICS_API_KEY := None;
       SingleServer.jwt_resolves := true; SingleServer.start_resolves := true;
       SingleServer.sendAudio_resolves := true;
       SingleServer.stopRecognition_resolves := true |}
    "data:audio/webm;base64,AAAA" SingleServer.fresh_server
  = (SingleServer.Val tt, SingleServer.fresh_server,
     [SingleServer.EmitError "Error processing audio"]).
Proof.
  exact (proj1
           (single_missing_key_retries
              {| SingleServer.SPEECHMATICS_API_KEY := None;
                 SingleServer.jwt_resolves := true;
                 SingleServer.start_resolves := true;
                 SingleServer.sendAudio_resolves := true;
                 SingleServer.stopRecognition_resolves := true |}
              {| SingleServer.SPEECHMATICS_API_KEY := Some "key";
                 SingleServer.jwt_resolves := true;
                 SingleServer.start_resolves := true;
                 SingleServer.sendAudio_resolves := true;
                 SingleServer.stopRecognition_resolves := true |}
              "data:audio/webm;base64,AAAA" "data:audio/webm;base64,AAAA"
              SingleServer.fresh_server "key" "AAAA"
              eq_refl eq_refl eq_refl eq_refl eq_refl eq_refl eq_refl)).
Defined.

(** X18.  In the single-session server, when the token request or
    [client.start] is rejected, two errors are reported ("Connection
    error with speech service", then "Error processing audio"), and the
    client that was created is neither stopped nor released.  While
    [isConnected] is not set, every later chunk then finds that client,
    sets nothing up, forwards nothing and reports nothing: its handler
    is left polling for the connection. *)
Theorem single_failed_start_keeps_client
    (env env' : SingleServer.environment) (audio audio' : string)
    (sv : SingleServer.server) (apiKey : string) :
  Single.client (SingleServer.vars sv) = None ->
  Single.isConnected (SingleServer.vars sv) = false ->
  truthy_opt (SingleServer.SPEECHMATICS_API_KEY env) = Some apiKey ->
  SingleServer.jwt_resolves env && SingleServer.start_resolves env = false ->
  let n := SingleServer.next_client sv in
  let sv1 :=
    {| SingleServer.vars := SingleServer.set_client (Some n) (SingleServer.vars sv);
       SingleServer.next_client := S n |} in
  SingleServer.audioData env audio sv
  = (SingleServer.Val tt, sv1,
     ([SingleServer.NewClient n; SingleServer.CreateJWT apiKey]
      ++ (if SingleServer.jwt_resolves env then [SingleServer.Start n] else [])
      ++ [SingleServer.EmitError "Connection error with speech service";
          SingleServer.EmitError "Error processing audio"])%list)
  /\ SingleServer.audioData env' audio' sv1 = (SingleServer.Polling, sv1, []).
Proof.
  destruct sv as [[cl con sp tx stx] n0]. cbn. intros -> -> Hk Hfail.
  split; single_run.
  - rewrite Hk. single_run.
    destruct (SingleServer.jwt_resolves env);
      [destruct (SingleServer.start_resolves env)|];
      try discriminate; reflexivity.
  - reflexivity.
Qed.

Lemma single_failed_start_keeps_client_witness :
  let env := {| SingleServer.SPEECHMATICS_API_KEY := Some "key";
                SingleServer.jwt_resolves := true;
                SingleServer.start_resolves := false;
                SingleServer.sendAudio_resolves := true;
                SingleServer.stopRecognition_resolves := true |} in
  let sv1 := {| SingleServer.vars :=
                  SingleServer.set_client (Some 0) Single.initial;
                SingleServer.next_client := 1 |} in
  SingleServer.audioData env "data:audio/webm;base64,AAAA"
    SingleServer.fresh_server
  = (SingleServer.Val tt, sv1,
     [SingleServer.NewClient 0; SingleServer.CreateJWT "key";
      SingleServer.Start 0;
      SingleServer.EmitError "Connection error with speech service";
      SingleServer.EmitError "Error processing audio"])
  /\ SingleServer.audioData env "data:audio/webm;base64,AAAA" sv1
     = (SingleServer.Polling, sv1, []).
Proof.
  exact (single_failed_start_keeps_client
           {| SingleServer.SPEECHMATICS_API_KEY := Some "key";
              SingleServer.jwt_resolves := true;
              SingleServer.start_resolves := false;
              SingleServer.sendAudio_resolves := true;
              SingleServer.stopRecognition_resolves := true |}
           {| SingleServer.SPEECHMATICS_API_KEY := Some "key";
              SingleServer.jwt_resolves := true;
              SingleServer.start_resolves := false;
              SingleServer.sendAudio_resolves := true;
              SingleServer.stopRecognition_resolves := true |}
           "data:audio/webm;base64,AAAA" "data:audio/webm;base64,AAAA"
           SingleServer.fresh_server "key" eq_refl eq_refl eq_refl eq_refl).
Defined.

Lemma single_tell_all out sv :
  SingleServer.tell_all out sv = (SingleServer.Val tt, sv, out).
Proof.
  induction out as [|e out IH]; [reflexivity|].
  cbn [SingleServer.tell_all]. unfold SingleServer.bind, SingleServer.tell.
  now rewrite IH.
Qed.

(** X19.  [stopRecording] of the single-session server, for a
    connection that holds a client: what is left of the open turn is
    sent as one final segment and the client is asked to stop; when the
    stop resolves, client and turn are cleared while [isConnected] stays
    as it was; when it is rejected nothing is cleared, so that a second
    stop command sends the same final segment again. *)
Theorem single_stopRecording
    (env : SingleServer.environment) (sv : SingleServer.server) (c : nat) :
  Single.client (SingleServer.vars sv) = Some c ->
  let out := (SingleServer.remaining (SingleServer.vars sv)
              ++ [SingleServer.StopRecognition c])%list in
  SingleServer.stopRecording env sv
  = (SingleServer.Val tt,
     (if SingleServer.stopRecognition_resolves env
      then {| SingleServer.vars := SingleServer.release (SingleServer.vars sv);
              SingleServer.next_client := SingleServer.next_client sv |}
      else sv),
     out)
  /\ Single.isConnected
       (SingleServer.vars (snd (fst (SingleServer.stopRecording env sv))))
     = Single.isConnected (SingleServer.vars sv)
  /\ (SingleServer.stopRecognition_resolves env = false ->
      snd (SingleServer.bind (SingleServer.stopRecording env)
             (fun _ => SingleServer.stopRecording env) sv)
      = (out ++ out)%list).
Proof.
  intros Hc out.
  assert (SingleServer.stopRecording env sv
          = (SingleServer.Val tt,
             (if SingleServer.stopRecognition_resolves env
              then {| SingleServer.vars :=
                        SingleServer.release (SingleServer.vars sv);
                      SingleServer.next_client := SingleServer.next_client sv |}
              else sv),
             out)) as H.
  { unfold SingleServer.stopRecording, SingleServer.bind at 1, SingleServer.get.
    rewrite Hc. unfold SingleServer.try_catch, SingleServer.bind.
    rewrite single_tell_all. unfold SingleServer.tell.
    destruct (SingleServer.stopRecognition_resolves env); cbn;
      now rewrite ?app_nil_r. }
  split; [exact H|]. split.
  - rewrite H. now destruct (SingleServer.stopRecognition_resolves env).
  - intros Hrej. unfold SingleServer.bind. rewrite H, Hrej, H, Hrej. reflexivity.
Qed.

Lemma single_stopRecording_witness :
  let sv := {| SingleServer.vars :=
                 Single.set_turn "S1" "I feel fine"
                   (SingleServer.set_client (Some 0) Single.initial);
               SingleServer.next_client := 1 |} in
  let env := {| SingleServer.SPEECHMATICS_API_KEY := Some "key";
                SingleServer.jwt_resolves := true;
                SingleServer.start_resolves := true;
                SingleServer.sendAudio_resolves := true;
                SingleServer.stopRecognition_resolves := false |} in
  let seg := SingleServer.Emit
               {| Single.t_segment :=
                    {| seg_speaker := "S1"; seg_text := "I feel fine" |};
                  Single.t_isPartial := false |} in
  snd (SingleServer.bind (SingleServer.stopRecording env)
         (fun _ => SingleServer.stopRecording env) sv)
  = [seg; SingleServer.StopRecognition 0; seg; SingleServer.StopRecognition 0].
Proof.
  exact (proj2 (proj2
           (single_stopRecording
              {| SingleServer.SPEECHMATICS_API_KEY := Some "key";
                 SingleServer.jwt_resolves := true;
                 SingleServer.start_resolves := true;
                 SingleServer.sendAudio_resolves := true;
                 SingleServer.stopRecognition_resolves := false |}
              {| SingleServer.vars :=
                   Single.set_turn "S1" "I feel fine"
                     (SingleServer.set_client (Some 0) Single.initial);
                 SingleServer.next_client := 1 |} 0 eq_refl)) eq_refl).
Defined.

(** X20.  The single-session server never clears [isConnected].  After
    a session that was connected has been stopped, a chunk whose token
    request or [client.start] is rejected leaves a client that never
    started in place with the flag still set, and the chunk after that
    is forwarded to this client. *)
Theorem single_stale_connected_flag
    (env0 env1 env2 : SingleServer.environment) (audio1 audio2 : string)
    (sv : SingleServer.server) (c : nat) (apiKey base64 : string) :
  Single.client (SingleServer.vars sv) = Some c ->
  Single.isConnected (SingleServer.vars sv) = true ->
  SingleServer.stopRecognition_resolves env0 = true ->
  truthy_opt (SingleServer.SPEECHMATICS_API_KEY env1) = Some apiKey ->
  SingleServer.jwt_resolves env1 && SingleServer.start_resolves env1 = false ->
  split_comma_1 audio2 = Some base64 ->
  SingleServer.sendAudio_resolves env2 = true ->
  let n := SingleServer.next_client sv in
  snd (SingleServer.bind (SingleServer.stopRecording env0)
         (fun _ =>
            SingleServer.bind (SingleServer.audioData env1 audio1)
              (fun _ => SingleServer.audioData env2 audio2)) sv)
  = (SingleServer.remaining (SingleServer.vars sv)
     ++ [SingleServer.StopRecognition c;
         SingleServer.NewClient n; SingleServer.CreateJWT apiKey]
     ++ (if SingleServer.jwt_resolves env1 then [SingleServer.Start n] else [])
     ++ [SingleServer.EmitError "Connection error with speech service";
         SingleServer.EmitError "Error processing audio";
         SingleServer.SendAudio n base64])%list.
Proof.
  intros Hc Hcon Hstop Hkey Hfail Hp Hsend n.
  unfold SingleServer.bind at 1.
  unfold SingleServer.stopRecording, SingleServer.bind at 1, SingleServer.get.
  rewrite Hc. unfold SingleServer.try_catch, SingleServer.bind at 1.
  rewrite single_tell_all. unfold SingleServer.bind at 1, SingleServer.tell at 1.
  rewrite Hstop. unfold SingleServer.modify.
  destruct sv as [[cl con sp tx stx] n0]. cbn in Hc, Hcon, n. subst cl con n.
  cbn [SingleServer.vars SingleServer.next_client SingleServer.release
       Single.isConnected app].
  unfold SingleServer.bind at 1. single_run. rewrite Hkey. single_run.
  destruct (SingleServer.jwt_resolves env1);
    [destruct (SingleServer.start_resolves env1)|]; try discriminate;
    single_run; rewrite Hp; single_run; rewrite Hsend; cbn [snd app];
    rewrite <- !app_assoc; reflexivity.
Qed.

Lemma single_stale_connected_flag_witness :
  let ok := {| SingleServer.SPEECHMATICS_API_KEY := Some "key";
               SingleServer.jwt_resolves := true;
               SingleServer.start_resolves := true;
               SingleServer.sendAudio_resolves := true;
               SingleServer.stopRecognition_resolves := true |} in
  let rejected := {| SingleServer.SPEECHMATICS_API_KEY := Some "key";
                     SingleServer.jwt_resolves := true;
                     SingleServer.start_resolves := false;
                     SingleServer.sendAudio_resolves := true;
                     SingleServer.stopRecognition_resolves := true |} in
  let sv := {| SingleServer.vars :=
                 SingleServer.set_isConnected true
                   (SingleServer.set_client (Some 0) Single.initial);
               SingleServer.next_client := 1 |} in
  snd (SingleServer.bind (SingleServer.stopRecording ok)
         (fun _ =>
            SingleServer.bind
              (SingleServer.audioData rejected "data:audio/webm;base64,AAAA")
              (fun _ => SingleServer.audioData ok "data:audio/webm;base64,BBBB"))
         sv)
  = [SingleServer.StopRecognition 0; SingleServer.NewClient 1;
     SingleServer.CreateJWT "key"; SingleServer.Start 1;
     SingleServer.EmitError "Connection error with speech service";
     SingleServer.EmitError "Error processing audio";
     SingleServer.SendAudio 1 "BBBB"].
Proof.
  exact (single_stale_connected_flag
           {| SingleServer.SPEECHMATICS_API_KEY := Some "key";
              SingleServer.jwt_resolves := true;
              SingleServer.start_resolves := true;
              SingleServer.sendAudio_resolves := true;
              SingleServer.stopRecognition_resolves := true |}
           {| SingleServer.SPEECHMATICS_API_KEY := Some "key";
              SingleServer.jwt_resolves := true;
              SingleServer.start_resolves := false;
              SingleServer.sendAudio_resolves := true;
              SingleServer.stopRecognition_resolves := true |}
           {| SingleServer.SPEECHMATICS_API_KEY := Some "key";
              SingleServer.jwt_resolves := true;
              SingleServer.start_resolves := true;
              SingleServer.sendAudio_resolves := true;
              SingleServer.stopRecognition_resolves := true |}
           "data:audio/webm;base64,AAAA" "data:audio/webm;base64,BBBB"
           {| SingleServer.vars :=
                SingleServer.set_isConnected true
                  (SingleServer.set_client (Some 0) Single.initial);
              SingleServer.next_client := 1 |}
           0 "key" "BBBB" eq_refl eq_refl eq_refl eq_refl eq_refl eq_refl
           eq_refl).
Defined.

(** * Listener and stop command together *)




